(** * AutoCRM: the AI-suggestion lifecycle hook ([useAISuggestions])

    A shallow embedding of the hook that mirrors the [ai_suggestions] rows of
    one ticket, reconciles them with the realtime change feed, records agent
    feedback in two remote writes and measures how far an agent's text is from
    the suggested one ([calculateEditDistance]).

    Layout: definitions first (edit distance, data model, change-feed
    handler, the effect monad and [storeFeedback], accept / reject), then the
    lemmas and theorems. *)

From stdpp Require Import base list strings gmap sorting.
From Stdlib Require Import ZArith Lia Ascii.

Set Default Proof Using "Type".

(* ===================================================================== *)
(** * Part I.  Definitions                                                 *)
(* ===================================================================== *)

(** ** Edit distance *)

(** A JavaScript string is a sequence of UTF-16 code units; [str[i]] and
    [===] on one-character strings compare code units. *)
Definition code_unit : Type := N.
Definition jsstring : Type := list code_unit.

(** ASCII text as a JavaScript string (one code unit per character). *)
Fixpoint js (s : string) : jsstring :=
  match s with
  | EmptyString => []
  | String c s' => Ascii.N_of_ascii c :: js s'
  end.

(** [Math.min(a, b, c)] on the counts the table holds (all of them at most
    [m + n], far below the range where JavaScript numbers stop being exact). *)
Definition Math_min (a b c : nat) : nat := a `min` (b `min` c).

(** [Array(m + 1).fill(0).map(() => Array(n + 1).fill(0))] *)
Definition new_table (m n : nat) : list (list nat) :=
  replicate (m + 1) (replicate (n + 1) 0).

(** [dp[i][j]] as a read.  Every read of the loops below is in range (see
    [dp_in_range]), so the default is never observed. *)
Definition dp_get (dp : list (list nat)) (i j : nat) : nat :=
  default 0 (dp !! i ≫= (.!! j)).

(** [dp[i][j] = v]: a write into row [i]. *)
Definition dp_set (dp : list (list nat)) (i j v : nat) : list (list nat) :=
  alter (<[j := v]>) i dp.

(** The body of the inner loop: the value it stores at [dp[i][j]]. *)
Definition cell (str1 str2 : jsstring) (dp : list (list nat)) (i j : nat) : nat :=
  if decide (i = 0) then j
  else if decide (j = 0) then i
  else if decide (str1 !! (i - 1) = str2 !! (j - 1)) then dp_get dp (i - 1) (j - 1)
  else 1 + Math_min (dp_get dp (i - 1) j) (dp_get dp i (j - 1)) (dp_get dp (i - 1) (j - 1)).

(** [for (let j = 0; j <= n; j++) ...], for a fixed [i]. *)
Definition inner_loop (str1 str2 : jsstring) (i : nat) (dp : list (list nat))
  : list (list nat) :=
  foldl (fun dp j => dp_set dp i j (cell str1 str2 dp i j)) dp (seq 0 (length str2 + 1)).

(** [for (let i = 0; i <= m; i++) ...] *)
Definition fill (str1 str2 : jsstring) : list (list nat) :=
  foldl (fun dp i => inner_loop str1 str2 i dp)
        (new_table (length str1) (length str2))
        (seq 0 (length str1 + 1)).

(** [calculateEditDistance(str1, str2)]: the last cell of the filled table. *)
Definition calculateEditDistance (str1 str2 : jsstring) : nat :=
  dp_get (fill str1 str2) (length str1) (length str2).

(** *** What the table is meant to hold

    The recurrence of the loop body, on the characters at the head of two
    strings; the table applies it to the last characters of prefixes, which
    is the same thing read backwards. *)
Fixpoint lev (s t : jsstring) {struct s} : nat :=
  match s with
  | [] => length t
  | a :: s' =>
      (fix lev_row (t : jsstring) : nat :=
         match t with
         | [] => S (length s')
         | b :: t' =>
             if decide (a = b) then lev s' t'
             else S (Math_min (lev s' t) (lev_row t') (lev s' t'))
         end) t
  end.

(** *** Edit scripts

    One single-character operation, anywhere in the string. *)
Inductive edit1 : jsstring -> jsstring -> Prop :=
| edit_insert p q c : edit1 (p ++ q) (p ++ c :: q)
| edit_delete p q c : edit1 (p ++ c :: q) (p ++ q)
| edit_substitute p q c d : edit1 (p ++ c :: q) (p ++ d :: q).

(** [edits n s t]: [n] operations, one after the other, turn [s] into [t]. *)
Inductive edits : nat -> jsstring -> jsstring -> Prop :=
| edits_O s : edits 0 s s
| edits_S n s u t : edit1 s u -> edits n u t -> edits (S n) s t.

(** ** Data model *)

(** Timestamps travel as ISO-8601 text ([new Date().toISOString()], the
    [created_at] / [updated_at] columns).  A timestamp is represented by the
    instant it denotes, in milliseconds since the epoch, which is what
    [new Date(text).getTime()] gives back. *)
Definition timestamp : Type := Z.

(** Modelled from the spec: the declarations of [@/types/ai-suggestion]
    ([AIMessageSuggestion], [AIFeedback], [FeedbackReason]) are imported by
    the hook but are not part of the sources.  The fields are the ones the
    hook reads and writes; the enumerations are those of the data model
    (status: pending, accepted, rejected; feedback type: approval,
    rejection, revision). *)
Inductive SuggestionStatus : Set := pending | accepted | rejected.
Inductive FeedbackType : Set := approval | rejection | revision.
Definition FeedbackReason : Type := string.

#[global] Instance SuggestionStatus_eq_dec : EqDecision SuggestionStatus.
Proof. solve_decision. Defined.
#[global] Instance FeedbackType_eq_dec : EqDecision FeedbackType.
Proof. solve_decision. Defined.

(** A value stored under a key of a [metadata] object. *)
Inductive MetaValue : Type :=
| MStr (s : string)
| MBool (b : bool)
| MNum (n : Z).

#[global] Instance MetaValue_eq_dec : EqDecision MetaValue.
Proof. solve_decision. Defined.

(** JavaScript truthiness, for the [||] and [? :] of the hook. *)
Definition truthy_string (s : option string) : bool :=
  match s with Some s => negb (bool_decide (s = "")) | None => false end.
Definition truthy_text (s : option jsstring) : bool :=
  match s with Some (_ :: _) => true | _ => false end.
Definition truthy_meta (v : option MetaValue) : bool :=
  match v with
  | Some (MStr s) => negb (bool_decide (s = ""))
  | Some (MBool b) => b
  | Some (MNum n) => negb (bool_decide (n = 0%Z))
  | None => false
  end.

(** [x || null] *)
Definition string_or_null (s : option string) : option string :=
  if truthy_string s then s else None.
Definition text_or_null (s : option jsstring) : option jsstring :=
  if truthy_text s then s else None.

Module Suggestion.
(** Modelled from the spec: the [metadata] of a suggestion, read by the hook
    as [metadata?.model], [metadata?.trace_id] and
    [metadata?.tokens_used?.total_tokens]. *)
Record TokenUsage : Type := { total_tokens : Z }.
Record Metadata : Type := {
  model : option string;
  trace_id : option string;
  tokens_used : option TokenUsage
}.
(** Modelled from the spec: [AIMessageSuggestion], a row of
    [ai_suggestions]; its declaration is not part of the sources.  Fields:
    identifier, ticket identifier, suggested response text, status,
    metadata (model name, trace identifier, token usage), creation and
    last-update timestamps. *)
Record t : Type := {
  id : string;
  ticket_id : string;
  suggested_response : jsstring;
  status : SuggestionStatus;
  metadata : option Metadata;
  created_at : timestamp;
  updated_at : timestamp
}.
#[global] Instance TokenUsage_eq_dec : EqDecision TokenUsage.
Proof. solve_decision. Defined.
#[global] Instance Metadata_eq_dec : EqDecision Metadata.
Proof. solve_decision. Defined.
#[global] Instance eq_dec : EqDecision t.
Proof. solve_decision. Defined.

(** [.update({ status, updated_at })] applied to one row. *)
Definition with_status (new_status : SuggestionStatus) (now : timestamp) (r : t) : t :=
  {| id := id r; ticket_id := ticket_id r;
     suggested_response := suggested_response r;
     status := new_status; metadata := metadata r;
     created_at := created_at r; updated_at := now |}.
End Suggestion.
Abbreviation AIMessageSuggestion := Suggestion.t.

Module Feedback.
(** Modelled from the spec: [AIFeedback], the argument of [storeFeedback];
    its declaration is not part of the sources.  Fields: suggestion id,
    ticket id, feedback type, optional reason, optional agent response text,
    optional metadata map, and the [updated_at] the callers set. *)
Record t : Type := {
  suggestion_id : string;
  ticket_id : string;
  feedback_type : FeedbackType;
  feedback_reason : option FeedbackReason;
  agent_response : option jsstring;
  metadata : option (gmap string MetaValue);
  updated_at : timestamp
}.
End Feedback.
Abbreviation AIFeedback := Feedback.t.

Module SuggestionState.
Inductive Status : Set := loading | success | error_.
(** [interface SuggestionState] *)
Record t : Type := {
  suggestion : AIMessageSuggestion;
  status : Status;
  error : option string
}.
#[global] Instance Status_eq_dec : EqDecision Status.
Proof. solve_decision. Defined.
#[global] Instance eq_dec : EqDecision t.
Proof. solve_decision. Defined.

(** [{ ...s, suggestion: updatedSuggestion }] *)
Definition with_suggestion (updated : AIMessageSuggestion) (s : t) : t :=
  {| suggestion := updated; status := status s; error := error s |}.
End SuggestionState.
Abbreviation SuggestionState := SuggestionState.t.

(** The identifier an entry of the local store is known by:
    [s.suggestion.id]. *)
Definition sid (s : SuggestionState) : string :=
  Suggestion.id (SuggestionState.suggestion s).

Module TicketMessage.
(** [interface TicketMessage] *)
Record t : Type := {
  id : string;
  content : string;
  is_ai_generated : bool;
  created_at : timestamp
}.
End TicketMessage.

Module Ticket.
(** A row of [tickets] with its [ticket_messages] joined in. *)
Record t : Type := {
  id : string;
  title : string;
  description : string;
  priority : string;
  messages : list TicketMessage.t
}.
End Ticket.

Module FeedbackEvent.
(** A row of [ai_feedback_events], as [storeFeedback] inserts it. *)
Record t : Type := {
  suggestion_id : string;
  ticket_id : string;
  agent_id : string;
  feedback_type : FeedbackType;
  feedback_reason : option FeedbackReason;
  agent_response : option jsstring;
  time_to_feedback : string;
  metadata : gmap string MetaValue;
  created_at : timestamp;
  updated_at : timestamp
}.
End FeedbackEvent.

(** ** The change feed *)

(** The payload of a [postgres_changes] notification: [eventType] with the
    new row ([payload.new]) or the identifier of the old one
    ([payload.old.id]). *)
Inductive Payload : Type :=
| INSERT (new : AIMessageSuggestion)
| DELETE (old_id : string)
| UPDATE (new : AIMessageSuggestion).

(** The handler of the subscription: the function each branch hands to
    [setSuggestions], applied to [currentSuggestions]. *)
Definition on_postgres_changes (payload : Payload)
    (currentSuggestions : list SuggestionState) : list SuggestionState :=
  match payload with
  | INSERT newSuggestion =>
      let exists_ :=
        existsb (fun s => bool_decide (sid s = Suggestion.id newSuggestion))
                currentSuggestions in
      if exists_ then currentSuggestions
      else currentSuggestions ++
             [ {| SuggestionState.suggestion := newSuggestion;
                  SuggestionState.status := SuggestionState.success;
                  SuggestionState.error := None |} ]
  | DELETE old_id =>
      filter (fun s => sid s <> old_id) currentSuggestions
  | UPDATE updatedSuggestion =>
      if bool_decide (Suggestion.status updatedSuggestion = accepted)
         || bool_decide (Suggestion.status updatedSuggestion = rejected)
      then filter (fun s => sid s <> Suggestion.id updatedSuggestion) currentSuggestions
      else map (fun s =>
                  if bool_decide (sid s = Suggestion.id updatedSuggestion)
                  then SuggestionState.with_suggestion updatedSuggestion s
                  else s)
               currentSuggestions
  end.

(** A run of notifications, delivered one after the other. *)
Definition deliver (feed : list Payload) (store : list SuggestionState)
  : list SuggestionState :=
  foldl (fun store payload => on_postgres_changes payload store) store feed.

(** ** What the hook throws *)

(** The [error] member of a Supabase answer. *)
Record PostgrestError : Type := { message : string; code : string }.

Inductive Thrown : Type :=
| JsError (msg : string)              (* [new Error(msg)] *)
| Postgrest (e : PostgrestError).     (* [throw suggestionError], [throw feedbackError] *)

(** ** The observability client *)

Module Langfuse.
Inductive Author : Set := agent | customer.
Inductive Level : Set := level_success | level_error.

Record OriginalSuggestion : Type := {
  os_id : string;
  os_content : jsstring;
  os_model : option string;
  os_created_at : timestamp
}.
Record HistoryEntry : Type := {
  content : string;
  is_ai_generated : bool;
  created_at : timestamp;
  type : Author
}.
Record TicketContext : Type := {
  tc_id : string;
  title : string;
  description : string;
  priority : string;
  conversation_history : list HistoryEntry
}.
Record FeedbackInput : Type := {
  fi_type : FeedbackType;
  reason : option FeedbackReason;
  fi_agent_id : string
}.
(** [input] of [langfuse.trace] *)
Record TraceInput : Type := {
  original_suggestion : OriginalSuggestion;
  ticket_context : TicketContext;
  feedback : FeedbackInput
}.

(** [input] of the two spans *)
Inductive SpanInput : Type :=
| update_suggestion_status
    (suggestion_id : string) (new_status : SuggestionStatus) (timestamp_ : timestamp)
| store_feedback_event
    (suggestion_id ticket_id agent_id : string) (feedback_type : FeedbackType)
    (feedback_reason : option FeedbackReason) (agent_response : option jsstring)
    (metadata : option (gmap string MetaValue)).

Record Metrics : Type := {
  time_to_feedback_ms : Z;
  was_edited : bool;
  partial_use : MetaValue;
  quality_score : Z
}.
Record FeedbackResult : Type := {
  fr_status : string;
  fr_feedback_type : FeedbackType;
  processed_at : timestamp;
  fr_processing_time_ms : Z;
  metrics : Metrics
}.
Record SuggestionUpdate : Type := {
  su_new_status : SuggestionStatus;
  update_timestamp : timestamp;
  su_was_edited : bool;
  su_agent_response : option jsstring;
  edit_distance : option nat
}.
Record PerformanceAnalysis : Type := {
  response_length : nat;
  response_tokens : Z;
  processing_time_ms : Z;
  total_interaction_time_ms : Z
}.
(** [output] of [feedbackTrace.update] *)
Record TraceOutput : Type := {
  feedback_result : FeedbackResult;
  suggestion_update : SuggestionUpdate;
  performance_analysis : PerformanceAnalysis
}.
Record TraceMetadata : Type := {
  completion_time : timestamp;
  tm_trace_id : string;
  environment : option string
}.

(** What the client was asked to do, in order. *)
Inductive Call : Type :=
| trace (id name : string) (sessionId : option string) (input : TraceInput)
| span (name : string) (input : SpanInput)
| span_update (name : string) (level : Level) (error : option PostgrestError)
| trace_update (output : TraceOutput) (metadata : TraceMetadata)
| flushAsync.
End Langfuse.

(** ** The world the hook runs in *)

(** The remote tables. *)
Record Database : Type := {
  ai_suggestions : list AIMessageSuggestion;
  tickets : list Ticket.t;
  ai_feedback_events : list FeedbackEvent.t
}.

Record World : Type := {
  (** the React state [suggestions], as [setSuggestions] sees it *)
  store : list SuggestionState;
  (** [user?.id] of [useUser()], fixed for the life of the callback *)
  user_id : option string;
  db : Database;
  (** how the remote store answers the status update and the insert *)
  update_answer : option PostgrestError;
  insert_answer : option PostgrestError;
  (** the wall clock: the [k]-th [new Date()] reads [clock k] *)
  clock : nat -> Z;
  clock_reads : nat;
  (** the identifier Langfuse gives the next trace, and its call log *)
  next_trace_id : string;
  langfuse : list Langfuse.Call;
  (** [process.env.NODE_ENV] *)
  NODE_ENV : option string
}.

Definition set_store (f : list SuggestionState -> list SuggestionState) (w : World) : World :=
  {| store := f (store w); user_id := user_id w; db := db w;
     update_answer := update_answer w; insert_answer := insert_answer w;
     clock := clock w; clock_reads := clock_reads w;
     next_trace_id := next_trace_id w; langfuse := langfuse w;
     NODE_ENV := NODE_ENV w |}.

Definition set_db (f : Database -> Database) (w : World) : World :=
  {| store := store w; user_id := user_id w; db := f (db w);
     update_answer := update_answer w; insert_answer := insert_answer w;
     clock := clock w; clock_reads := clock_reads w;
     next_trace_id := next_trace_id w; langfuse := langfuse w;
     NODE_ENV := NODE_ENV w |}.

Definition tick (w : World) : World :=
  {| store := store w; user_id := user_id w; db := db w;
     update_answer := update_answer w; insert_answer := insert_answer w;
     clock := clock w; clock_reads := S (clock_reads w);
     next_trace_id := next_trace_id w; langfuse := langfuse w;
     NODE_ENV := NODE_ENV w |}.

Definition log (c : Langfuse.Call) (w : World) : World :=
  {| store := store w; user_id := user_id w; db := db w;
     update_answer := update_answer w; insert_answer := insert_answer w;
     clock := clock w; clock_reads := clock_reads w;
     next_trace_id := next_trace_id w; langfuse := langfuse w ++ [c];
     NODE_ENV := NODE_ENV w |}.

(** ** The effect monad: state that survives a [throw] *)

Definition M (A : Type) : Type := World -> World * (Thrown + A).

#[global] Instance M_ret : MRet M := fun A a w => (w, inr a).
#[global] Instance M_bind : MBind M := fun A B k m w =>
  match m w with
  | (w', inl e) => (w', inl e)
  | (w', inr a) => k a w'
  end.

Definition throw {A : Type} (e : Thrown) : M A := fun w => (w, inl e).

(** [try { body } catch (error) { handler }] *)
Definition try_catch {A : Type} (body : M A) (handler : Thrown -> M A) : M A :=
  fun w =>
    match body w with
    | (w', inl e) => handler e w'
    | (w', inr a) => (w', inr a)
    end.

Definition gets {A : Type} (f : World -> A) : M A := fun w => (w, inr (f w)).
Definition modify (f : World -> World) : M unit := fun w => (f w, inr tt).

(** [setSuggestions(updater)] *)
Definition setSuggestions (updater : list SuggestionState -> list SuggestionState) : M unit :=
  modify (set_store updater).

(** [new Date().getTime()]; with the representation of timestamps chosen
    above, also [new Date().toISOString()]. *)
Definition Date_now : M Z := fun w => (tick w, inr (clock w (clock_reads w))).

(** [await new Promise(resolve => setTimeout(resolve, 500))] *)
Definition sleep (ms : Z) : M unit := mret tt.

(** Notifications of the change feed that arrive while [task] is awaited.
    The handler only touches the local store. *)
Definition awaiting {A : Type} (feed : list Payload) (task : M A) : M A :=
  fun w => let (w', r) := task w in (set_store (deliver feed) w', r).

(** ** The remote store, as the hook calls it *)

(** [.single()]: the row when exactly one matches, [null] otherwise. *)
Definition single {A : Type} (rows : list A) : option A :=
  match rows with
  | [r] => Some r
  | _ => None
  end.

(** [supabase.from('ai_suggestions').select('*').eq('id', id).single()],
    its [data]. *)
Definition select_suggestion (id : string) : M (option AIMessageSuggestion) :=
  gets (fun w => single (filter (fun r => Suggestion.id r = id) (ai_suggestions (db w)))).

(** [supabase.from('tickets').select(...).eq('id', id).single()], its [data]. *)
Definition select_ticket (id : string) : M (option Ticket.t) :=
  gets (fun w => single (filter (fun r => Ticket.id r = id) (tickets (db w)))).

(** [supabase.from('ai_suggestions').update({ status, updated_at }).eq('id', id)],
    its [error].  A refused update leaves the table as it was. *)
Definition update_suggestion (id : string) (new_status : SuggestionStatus)
    (now : timestamp) : M (option PostgrestError) :=
  fun w =>
    match update_answer w with
    | Some e => (w, inr (Some e))
    | None =>
        (set_db (fun d =>
           {| ai_suggestions :=
                map (fun r => if bool_decide (Suggestion.id r = id)
                              then Suggestion.with_status new_status now r
                              else r)
                    (ai_suggestions d);
              tickets := tickets d;
              ai_feedback_events := ai_feedback_events d |}) w,
         inr None)
    end.

(** [supabase.from('ai_feedback_events').insert(row)], its [error]. *)
Definition insert_feedback_event (row : FeedbackEvent.t) : M (option PostgrestError) :=
  fun w =>
    match insert_answer w with
    | Some e => (w, inr (Some e))
    | None =>
        (set_db (fun d =>
           {| ai_suggestions := ai_suggestions d;
              tickets := tickets d;
              ai_feedback_events := ai_feedback_events d ++ [row] |}) w,
         inr None)
    end.

(** [ticket.messages.sort((a, b) => date(a.created_at) - date(b.created_at))]:
    ascending, and stable. *)
Fixpoint insert_by_date (m : TicketMessage.t) (l : list TicketMessage.t)
  : list TicketMessage.t :=
  match l with
  | [] => [m]
  | x :: l' =>
      if (TicketMessage.created_at m <=? TicketMessage.created_at x)%Z
      then m :: l
      else x :: insert_by_date m l'
  end.

Definition sort_by_date (l : list TicketMessage.t) : list TicketMessage.t :=
  foldr insert_by_date [] l.

(** ** [storeFeedback] *)

(** [feedback.feedback_type === 'approval' ? 'accepted' : 'rejected'] *)
Definition new_status_of (t : FeedbackType) : SuggestionStatus :=
  if bool_decide (t = approval) then accepted else rejected.

(** The row handed to [.insert] (lines 278-292 of the hook). *)
Definition feedback_event_row (feedback : AIFeedback) (agent_id trace_id : string)
    (now : timestamp) : FeedbackEvent.t :=
  {| FeedbackEvent.suggestion_id := Feedback.suggestion_id feedback;
     FeedbackEvent.ticket_id := Feedback.ticket_id feedback;
     FeedbackEvent.agent_id := agent_id;
     FeedbackEvent.feedback_type := Feedback.feedback_type feedback;
     FeedbackEvent.feedback_reason := string_or_null (Feedback.feedback_reason feedback);
     FeedbackEvent.agent_response := text_or_null (Feedback.agent_response feedback);
     FeedbackEvent.time_to_feedback := "0 seconds";
     FeedbackEvent.metadata :=
       <["trace_id" := MStr trace_id]> (default ∅ (Feedback.metadata feedback));
     FeedbackEvent.created_at := now;
     FeedbackEvent.updated_at := now |}.

(** [input] of [langfuse.trace] (lines 208-234). *)
Definition trace_input (suggestion : AIMessageSuggestion) (ticket : Ticket.t)
    (feedback : AIFeedback) (agent_id : string) : Langfuse.TraceInput :=
  {| Langfuse.original_suggestion :=
       {| Langfuse.os_id := Suggestion.id suggestion;
          Langfuse.os_content := Suggestion.suggested_response suggestion;
          Langfuse.os_model := Suggestion.metadata suggestion ≫= Suggestion.model;
          Langfuse.os_created_at := Suggestion.created_at suggestion |};
     Langfuse.ticket_context :=
       {| Langfuse.tc_id := Ticket.id ticket;
          Langfuse.title := Ticket.title ticket;
          Langfuse.description := Ticket.description ticket;
          Langfuse.priority := Ticket.priority ticket;
          Langfuse.conversation_history :=
            map (fun msg =>
                   {| Langfuse.content := TicketMessage.content msg;
                      Langfuse.is_ai_generated := TicketMessage.is_ai_generated msg;
                      Langfuse.created_at := TicketMessage.created_at msg;
                      Langfuse.type := if TicketMessage.is_ai_generated msg
                                       then Langfuse.agent else Langfuse.customer |})
                (sort_by_date (Ticket.messages ticket)) |};
     Langfuse.feedback :=
       {| Langfuse.fi_type := Feedback.feedback_type feedback;
          Langfuse.reason := Feedback.feedback_reason feedback;
          Langfuse.fi_agent_id := agent_id |} |}.

(** [feedback.metadata?.partial_use || false] *)
Definition partial_use_of (feedback : AIFeedback) : MetaValue :=
  let v := Feedback.metadata feedback ≫= (.!! "partial_use") in
  if truthy_meta v then default (MBool false) v else MBool false.

(** [output] of [feedbackTrace.update] (lines 309-337).  [was_edited]
    compares the two instants; the source compares the two stored texts, so
    two different texts of one and the same millisecond count as edited
    there and not here. *)
Definition trace_output (suggestion : AIMessageSuggestion) (feedback : AIFeedback)
    (now : timestamp) (feedbackProcessingTime timeToFeedback : Z) : Langfuse.TraceOutput :=
  let was_edited :=
    bool_decide (Suggestion.updated_at suggestion <> Suggestion.created_at suggestion) in
  {| Langfuse.feedback_result :=
       {| Langfuse.fr_status := "processed";
          Langfuse.fr_feedback_type := Feedback.feedback_type feedback;
          Langfuse.processed_at := now;
          Langfuse.fr_processing_time_ms := feedbackProcessingTime;
          Langfuse.metrics :=
            {| Langfuse.time_to_feedback_ms := timeToFeedback;
               Langfuse.was_edited := was_edited;
               Langfuse.partial_use := partial_use_of feedback;
               Langfuse.quality_score :=
                 if bool_decide (Feedback.feedback_type feedback = approval)
                 then 1%Z else 0%Z |} |};
     Langfuse.suggestion_update :=
       {| Langfuse.su_new_status := new_status_of (Feedback.feedback_type feedback);
          Langfuse.update_timestamp := now;
          Langfuse.su_was_edited := was_edited;
          Langfuse.su_agent_response := Feedback.agent_response feedback;
          Langfuse.edit_distance :=
            if truthy_text (Feedback.agent_response feedback)
            then Some (calculateEditDistance
                         (Suggestion.suggested_response suggestion)
                         (default [] (Feedback.agent_response feedback)))
            else None |};
     Langfuse.performance_analysis :=
       {| Langfuse.response_length := length (Suggestion.suggested_response suggestion);
          Langfuse.response_tokens :=
            let tokens := Suggestion.metadata suggestion ≫= Suggestion.tokens_used in
            match tokens with
            | Some u => Suggestion.total_tokens u     (* [0 || 0] is [0] *)
            | None => 0%Z
            end;
          Langfuse.processing_time_ms := feedbackProcessingTime;
          Langfuse.total_interaction_time_ms :=
            (timeToFeedback + feedbackProcessingTime)%Z |} |}.

(** [storeFeedback(feedback)] (lines 164-349).  The calls to the
    observability client are taken to complete: the awaited
    [feedbackTrace.update] and [langfuse.flushAsync] are recorded in the log
    and do not throw. *)
Definition storeFeedback (feedback : AIFeedback) : M unit :=
  user ← gets user_id;
  (if negb (truthy_string user) then
     (* Wait for user data to be available *)
     sleep 500;;
     if negb (truthy_string user)
     then throw (JsError "No user ID available")
     else mret tt
   else mret tt);;
  let agent_id := default "" user in
  suggestion ← select_suggestion (Feedback.suggestion_id feedback);
  match suggestion with
  | None => throw (JsError "Suggestion not found")
  | Some suggestion =>
  ticket ← select_ticket (Feedback.ticket_id feedback);
  match ticket with
  | None => throw (JsError "Ticket not found")
  | Some ticket =>
  now ← Date_now;
  feedbackStartTime ← Date_now;
  feedbackTrace_id ← gets next_trace_id;
  modify (log (Langfuse.trace feedbackTrace_id "suggestion-feedback"
                 (Suggestion.metadata suggestion ≫= Suggestion.trace_id)
                 (trace_input suggestion ticket feedback agent_id)));;
  (* First update the suggestion status *)
  modify (log (Langfuse.span "update-suggestion-status"
                 (Langfuse.update_suggestion_status
                    (Feedback.suggestion_id feedback)
                    (new_status_of (Feedback.feedback_type feedback))
                    now)));;
  suggestionError ← update_suggestion (Feedback.suggestion_id feedback)
                      (new_status_of (Feedback.feedback_type feedback)) now;
  match suggestionError with
  | Some suggestionError =>
      modify (log (Langfuse.span_update "update-suggestion-status"
                     Langfuse.level_error (Some suggestionError)));;
      throw (Postgrest suggestionError)
  | None =>
  modify (log (Langfuse.span_update "update-suggestion-status"
                 Langfuse.level_success None));;
  (* Then store the feedback *)
  modify (log (Langfuse.span "store-feedback-event"
                 (Langfuse.store_feedback_event
                    (Feedback.suggestion_id feedback)
                    (Feedback.ticket_id feedback)
                    agent_id
                    (Feedback.feedback_type feedback)
                    (string_or_null (Feedback.feedback_reason feedback))
                    (text_or_null (Feedback.agent_response feedback))
                    (Feedback.metadata feedback))));;
  feedbackError ← insert_feedback_event
                    (feedback_event_row feedback agent_id feedbackTrace_id now);
  match feedbackError with
  | Some feedbackError =>
      modify (log (Langfuse.span_update "store-feedback-event"
                     Langfuse.level_error (Some feedbackError)));;
      throw (Postgrest feedbackError)
  | None =>
  modify (log (Langfuse.span_update "store-feedback-event"
                 Langfuse.level_success None));;
  feedbackEndTime ← Date_now;
  let feedbackProcessingTime := (feedbackEndTime - feedbackStartTime)%Z in
  let timeToFeedback := (now - Suggestion.created_at suggestion)%Z in
  (* Update the trace with final status *)
  env ← gets NODE_ENV;
  modify (log (Langfuse.trace_update
                 (trace_output suggestion feedback now feedbackProcessingTime timeToFeedback)
                 {| Langfuse.completion_time := now;
                    Langfuse.tm_trace_id := feedbackTrace_id;
                    Langfuse.environment := env |}));;
  (* Make sure to flush events before returning *)
  modify (log Langfuse.flushAsync)
  end end end end.

(** ** Accepting and rejecting *)

(** [acceptSuggestion(suggestion_id)] (lines 351-369), for the hook of ticket
    [ticketId]; [feed] is what the change feed delivers while the remote call
    is awaited. *)
Definition acceptSuggestion (ticketId : string) (feed : list Payload)
    (suggestion_id : string) : M unit :=
  now ← Date_now;
  let feedback : AIFeedback :=
    {| Feedback.suggestion_id := suggestion_id;
       Feedback.ticket_id := ticketId;
       Feedback.feedback_type := approval;
       Feedback.feedback_reason := None;
       Feedback.agent_response := None;
       Feedback.metadata := None;
       Feedback.updated_at := now |} in
  awaiting feed (storeFeedback feedback);;
  (* Remove the suggestion from local state immediately *)
  setSuggestions (fun currentSuggestions =>
    filter (fun s => sid s <> suggestion_id) currentSuggestions).

(** [rejectSuggestion(suggestion_id, reason, additionalFeedback)]
    (lines 371-402).  [suggestions] is the value of the React state the
    callback closed over when it was created (its dependency list names it). *)
Definition rejectSuggestion (ticketId : string) (suggestions : list SuggestionState)
    (feed : list Payload)
    (suggestion_id : string) (reason : FeedbackReason)
    (additionalFeedback : option string) : M unit :=
  now ← Date_now;
  let feedback : AIFeedback :=
    {| Feedback.suggestion_id := suggestion_id;
       Feedback.ticket_id := ticketId;
       Feedback.feedback_type := rejection;
       Feedback.feedback_reason := Some reason;
       Feedback.agent_response := None;
       Feedback.metadata :=
         if truthy_string additionalFeedback
         then Some {[ "additional_feedback" := MStr (default "" additionalFeedback) ]}
         else None;
       Feedback.updated_at := now |} in
  try_catch
    ((* First update local state to ensure UI is responsive *)
     setSuggestions (fun currentSuggestions =>
       filter (fun s => sid s <> suggestion_id) currentSuggestions);;
     (* Then update the database *)
     awaiting feed (storeFeedback feedback))
    (fun error =>
       (* If database update fails, revert the local state *)
       let failedSuggestion :=
         find (fun s => bool_decide (sid s = suggestion_id)) suggestions in
       match failedSuggestion with
       | Some failedSuggestion =>
           setSuggestions (fun current => current ++ [failedSuggestion])
       | None => mret tt
       end;;
       throw error).

(** ** Vocabulary of the statements *)

(** The identifiers held by the local store, in order. *)
Definition ids (store : list SuggestionState) : list string := map sid store.

(** The entry the handler appends for a fresh record. *)
Definition fresh_entry (newSuggestion : AIMessageSuggestion) : SuggestionState :=
  {| SuggestionState.suggestion := newSuggestion;
     SuggestionState.status := SuggestionState.success;
     SuggestionState.error := None |}.

(** [storeFeedback] gets as far as its two writes: an agent is signed in
    ([uid]), and the suggestion [s] and the ticket [t] of the submission are
    found. *)
Definition reaches_writes (fb : AIFeedback) (w : World)
    (uid : string) (s : AIMessageSuggestion) (t : Ticket.t) : Prop :=
  user_id w = Some uid /\ uid <> "" /\
  single (filter (fun r => Suggestion.id r = Feedback.suggestion_id fb)
                 (ai_suggestions (db w))) = Some s /\
  single (filter (fun r => Ticket.id r = Feedback.ticket_id fb)
                 (tickets (db w))) = Some t.

(** The instant [storeFeedback] stamps its writes with: its first reading of
    the clock ([now]). *)
Definition stamp (w : World) : timestamp := clock w (clock_reads w).

(** The distance between the prefix of length [i] of [str1] and the prefix
    of length [j] of [str2], by the recurrence on their last characters. *)
Definition prefix_distance (str1 str2 : jsstring) (i j : nat) : nat :=
  lev (reverse (take i str1)) (reverse (take j str2)).

(** The table has [m + 1] rows of [n + 1] cells. *)
Definition table_shape (m n : nat) (dp : list (list nat)) : Prop :=
  length dp = m + 1 /\ forall i row, dp !! i = Some row -> length row = n + 1.

(** Every cell the loops reach before [dp[i][j]] holds its prefix distance. *)
Definition filled_before (str1 str2 : jsstring) (dp : list (list nat)) (i j : nat) : Prop :=
  forall i' j', i' <= length str1 -> j' <= length str2 ->
    i' < i \/ (i' = i /\ j' < j) ->
    dp_get dp i' j' = prefix_distance str1 str2 i' j'.

(** The submission [rejectSuggestion] hands to [storeFeedback], and the run
    of [storeFeedback] it awaits: the world has had its clock read once and
    the suggestion taken out of the local store. *)
Definition rejection_submitted (ticketId suggestion_id : string)
    (reason : FeedbackReason) (additionalFeedback : option string)
    (now : timestamp) : AIFeedback :=
  {| Feedback.suggestion_id := suggestion_id;
     Feedback.ticket_id := ticketId;
     Feedback.feedback_type := rejection;
     Feedback.feedback_reason := Some reason;
     Feedback.agent_response := None;
     Feedback.metadata :=
       if truthy_string additionalFeedback
       then Some {[ "additional_feedback" := MStr (default "" additionalFeedback) ]}
       else None;
     Feedback.updated_at := now |}.

Definition remote_call_of_reject (ticketId suggestion_id : string)
    (reason : FeedbackReason) (additionalFeedback : option string)
    (w : World) : World * (Thrown + unit) :=
  storeFeedback
    (rejection_submitted ticketId suggestion_id reason additionalFeedback (stamp w))
    (set_store (filter (fun s => sid s <> suggestion_id)) (tick w)).

(** The [ai_suggestions] table after a status update that was let through. *)
Definition status_updated (id : string) (new_status : SuggestionStatus)
    (now : timestamp) (rows : list AIMessageSuggestion) : list AIMessageSuggestion :=
  map (fun r => if bool_decide (Suggestion.id r = id)
                then Suggestion.with_status new_status now r
                else r) rows.

(** ** A small ticket to run the hook on *)

Module Sample.
Definition s1 : AIMessageSuggestion :=
  {| Suggestion.id := "s1"; Suggestion.ticket_id := "t1";
     Suggestion.suggested_response := js "Please restart the router.";
     Suggestion.status := pending; Suggestion.metadata := None;
     Suggestion.created_at := 1000%Z; Suggestion.updated_at := 1000%Z |}.

Definition s2 : AIMessageSuggestion :=
  {| Suggestion.id := "s2"; Suggestion.ticket_id := "t1";
     Suggestion.suggested_response := js "Could you send a screenshot?";
     Suggestion.status := pending; Suggestion.metadata := None;
     Suggestion.created_at := 2000%Z; Suggestion.updated_at := 2000%Z |}.

Definition shown (s : AIMessageSuggestion) : SuggestionState :=
  {| SuggestionState.suggestion := s;
     SuggestionState.status := SuggestionState.success;
     SuggestionState.error := None |}.

Definition t1 : Ticket.t :=
  {| Ticket.id := "t1"; Ticket.title := "No internet";
     Ticket.description := "The connection drops"; Ticket.priority := "medium";
     Ticket.messages :=
       [ {| TicketMessage.id := "m1"; TicketMessage.content := "It is down again";
            TicketMessage.is_ai_generated := false; TicketMessage.created_at := 900%Z |} ] |}.

(** Both suggestions fetched and pending, an agent signed in, the remote
    store answering [update_answer] and [insert_answer]. *)
Definition world_with (rows : list AIMessageSuggestion)
    (update_answer insert_answer : option PostgrestError) : World :=
  {| store := [shown s1; shown s2];
     user_id := Some "agent-7";
     db := {| ai_suggestions := rows; tickets := [t1]; ai_feedback_events := [] |};
     update_answer := update_answer;
     insert_answer := insert_answer;
     clock := fun k => (5000 + 10 * Z.of_nat k)%Z;
     clock_reads := 0;
     next_trace_id := "trace-1";
     langfuse := [];
     NODE_ENV := Some "test" |}.

(** [s1] as the remote store holds it once it has been accepted. *)
Definition s1_accepted : AIMessageSuggestion := Suggestion.with_status accepted 4000%Z s1.

(** [s1] reworded upstream, still pending. *)
Definition s1_reworded : AIMessageSuggestion :=
  {| Suggestion.id := "s1"; Suggestion.ticket_id := "t1";
     Suggestion.suggested_response := js "Please restart the modem.";
     Suggestion.status := pending; Suggestion.metadata := None;
     Suggestion.created_at := 1000%Z; Suggestion.updated_at := 3000%Z |}.

Definition world : option PostgrestError -> option PostgrestError -> World :=
  world_with [s1; s2].

Definition refused : PostgrestError := {| message := "permission denied"; code := "42501" |}.

(** A rejection that carries no reason. *)
Definition rejection_without_reason : AIFeedback :=
  {| Feedback.suggestion_id := "s1"; Feedback.ticket_id := "t1";
     Feedback.feedback_type := rejection; Feedback.feedback_reason := None;
     Feedback.agent_response := None; Feedback.metadata := None;
     Feedback.updated_at := 5000%Z |}.

(** A rejection with a reason. *)
Definition rejection_off_topic : AIFeedback :=
  {| Feedback.suggestion_id := "s1"; Feedback.ticket_id := "t1";
     Feedback.feedback_type := rejection; Feedback.feedback_reason := Some "off-topic";
     Feedback.agent_response := None; Feedback.metadata := None;
     Feedback.updated_at := 5000%Z |}.

(** An approval. *)
Definition approval_of_s1 : AIFeedback :=
  {| Feedback.suggestion_id := "s1"; Feedback.ticket_id := "t1";
     Feedback.feedback_type := approval; Feedback.feedback_reason := None;
     Feedback.agent_response := None; Feedback.metadata := None;
     Feedback.updated_at := 5000%Z |}.
End Sample.

(** The identifier a notification is about. *)
Definition payload_id (payload : Payload) : string :=
  match payload with
  | INSERT new => Suggestion.id new
  | DELETE old_id => old_id
  | UPDATE new => Suggestion.id new
  end.

(** The submission [acceptSuggestion] hands to [storeFeedback], and the run
    of [storeFeedback] it awaits (the clock has been read once). *)
Definition approval_submitted (ticketId suggestion_id : string) (now : timestamp)
  : AIFeedback :=
  {| Feedback.suggestion_id := suggestion_id;
     Feedback.ticket_id := ticketId;
     Feedback.feedback_type := approval;
     Feedback.feedback_reason := None;
     Feedback.agent_response := None;
     Feedback.metadata := None;
     Feedback.updated_at := now |}.

Definition remote_call_of_accept (ticketId suggestion_id : string) (w : World)
  : World * (Thrown + unit) :=
  storeFeedback (approval_submitted ticketId suggestion_id (stamp w)) (tick w).

(** ** The rest of the hook: loading flag, error, fetch and trigger *)

(** A JSON document, as text. *)
Definition JSON : Type := string.

(** How [fetch('/api/ai/generate-suggestion', ...)] turns out: the promise
    rejects, or a response arrives with its [ok] flag and the outcome of
    [response.json()]. *)
Inductive HttpOutcome : Type :=
| http_rejected (e : Thrown)
| http_response (ok : bool) (json : Thrown + JSON).

(** The state of one [useAISuggestions(ticketId)]: the world of the
    callbacks above, the two other React states, and how the remote side
    answers the select of [fetchSuggestions] and the request of
    [triggerSuggestion]. *)
Record Hook : Type := {
  world : World;
  isLoading : bool;
  error : option Thrown;
  select_answer : option PostgrestError;
  http : HttpOutcome
}.

Definition set_world (f : World -> World) (h : Hook) : Hook :=
  {| world := f (world h); isLoading := isLoading h; error := error h;
     select_answer := select_answer h; http := http h |}.

Definition set_isLoading (b : bool) (h : Hook) : Hook :=
  {| world := world h; isLoading := b; error := error h;
     select_answer := select_answer h; http := http h |}.

Definition set_error (e : Thrown) (h : Hook) : Hook :=
  {| world := world h; isLoading := isLoading h; error := Some e;
     select_answer := select_answer h; http := http h |}.

(** The same effect monad, over the state of the hook. *)
Definition H (A : Type) : Type := Hook -> Hook * (Thrown + A).

#[global] Instance H_ret : MRet H := fun A a h => (h, inr a).
#[global] Instance H_bind : MBind H := fun A B k m h =>
  match m h with
  | (h', inl e) => (h', inl e)
  | (h', inr a) => k a h'
  end.

Definition throwH {A : Type} (e : Thrown) : H A := fun h => (h, inl e).

(** [try { body } catch (err) { handler }] *)
Definition try_catchH {A : Type} (body : H A) (handler : Thrown -> H A) : H A :=
  fun h =>
    match body h with
    | (h', inl e) => handler e h'
    | (h', inr a) => (h', inr a)
    end.

(** [try { body } finally { cleanup }], for a cleanup that does not throw. *)
Definition try_finally {A : Type} (body : H A) (cleanup : Hook -> Hook) : H A :=
  fun h => let (h', r) := body h in (cleanup h', r).

Definition modifyH (f : Hook -> Hook) : H unit := fun h => (f h, inr tt).

(** [supabase.from('ai_suggestions').select('*', { count: 'exact' })
      .eq('ticket_id', ticketId).order('created_at', { ascending: true })]:
    the rows of the ticket by ascending creation time (rows created at the
    same instant stay in table order), or the error the store answers. *)
Fixpoint insert_by_created_at (r : AIMessageSuggestion) (l : list AIMessageSuggestion)
  : list AIMessageSuggestion :=
  match l with
  | [] => [r]
  | x :: l' =>
      if (Suggestion.created_at r <=? Suggestion.created_at x)%Z
      then r :: l
      else x :: insert_by_created_at r l'
  end.

Definition order_by_created_at (rows : list AIMessageSuggestion) : list AIMessageSuggestion :=
  foldr insert_by_created_at [] rows.

Definition select_by_ticket (ticketId : string)
  : H (PostgrestError + list AIMessageSuggestion) :=
  fun h =>
    (h, inr match select_answer h with
            | Some error => inl error
            | None =>
                inr (order_by_created_at
                       (filter (fun r => Suggestion.ticket_id r = ticketId)
                               (ai_suggestions (db (world h)))))
            end).

(** [err instanceof Error]: true of what [new Error] made; whether the
    [error] object of a Supabase answer is one depends on the client library,
    so that is a parameter. *)
Definition is_Error (instanceof_Error : PostgrestError -> bool) (err : Thrown) : bool :=
  match err with
  | JsError _ => true
  | Postgrest e => instanceof_Error e
  end.

(** [fetchSuggestions()] (lines 30-62), for the hook of ticket [ticketId]. *)
Definition fetchSuggestions (instanceof_Error : PostgrestError -> bool)
    (ticketId : string) : H unit :=
  try_finally
    (try_catchH
       (modifyH (set_isLoading true);;
        answer ← select_by_ticket ticketId;
        match answer with
        | inl error_ => throwH (Postgrest error_)
        | inr data =>
            modifyH (set_world (set_store (fun _ =>
              map (fun suggestion =>
                     {| SuggestionState.suggestion := suggestion;
                        SuggestionState.status := SuggestionState.success;
                        SuggestionState.error := None |})
                  data)))
        end)
       (fun err =>
          modifyH (set_error
                     (if is_Error instanceof_Error err then err
                      else JsError "Failed to fetch AI suggestions"))))
    (set_isLoading false).



(** A callback of the hook above, run on the world of the hook. *)
Definition liftM {A : Type} (m : M A) : H A :=
  fun h => let (w', r) := m (world h) in (set_world (fun _ => w') h, r).

(** ** [useUserRole] *)

Module UserRole.
(** A row of [user_roles] with its role joined in
    ([select('*, role:roles!inner(name)')]). *)
Record Row : Type := { user_id : string; role_name : string }.

(** The four React states of the hook. *)
Record State : Type := {
  isCustomer : bool;
  isAgent : bool;
  isAdmin : bool;
  loading : bool
}.

Definition set_loading (b : bool) (st : State) : State :=
  {| isCustomer := isCustomer st; isAgent := isAgent st;
     isAdmin := isAdmin st; loading := b |}.

(** [roleNames.includes(name)] *)
Definition includes (roleNames : list string) (name : string) : bool :=
  existsb (fun n => bool_decide (n = name)) roleNames.

(** [fetchUserRoles()] (lines 20-39); [answer] is what the select returns:
    its [error], or its [data] (possibly [null]). *)
Definition fetchUserRoles (answer : PostgrestError + option (list Row)) (st : State) : State :=
  let after_try :=
    match answer with
    | inl error_ => st        (* thrown, caught and logged *)
    | inr data =>
        let roleNames := default [] (map role_name <$> data) in
        {| isCustomer := includes roleNames "customer";
           isAgent := includes roleNames "agent";
           isAdmin := includes roleNames "admin";
           loading := loading st |}
    end in
  set_loading false after_try.

(** The effect of the hook (lines 12-18), for the [profile?.id] at hand. *)
Definition effect (profile_id : option string)
    (answer : PostgrestError + option (list Row)) (st : State) : State :=
  if truthy_string profile_id then fetchUserRoles answer st
  else set_loading false st.
End UserRole.

(** [a] was created no later than [b]. *)
Definition created_no_later (a b : AIMessageSuggestion) : Prop :=
  (Suggestion.created_at a <= Suggestion.created_at b)%Z.

(** ** More situations on the sample ticket *)

Module Situation.

(** An approval of a suggestion nobody has heard of. *)
Definition approval_of_s9 : AIFeedback :=
  {| Feedback.suggestion_id := "s9"; Feedback.ticket_id := "t1";
     Feedback.feedback_type := approval; Feedback.feedback_reason := None;
     Feedback.agent_response := None; Feedback.metadata := None;
     Feedback.updated_at := 5000%Z |}.
(** The hook on the sample ticket, as mounted: loading, no error yet, and a
    local store that still shows something else. *)
Definition hook (rows : list AIMessageSuggestion)
    (select_answer : option PostgrestError) (http : HttpOutcome) : Hook :=
  {| world := Sample.world_with rows None None;
     isLoading := true;
     error := None;
     select_answer := select_answer;
     http := http |}.

(** A suggestion of another ticket. *)
Definition s3_elsewhere : AIMessageSuggestion :=
  {| Suggestion.id := "s3"; Suggestion.ticket_id := "t2";
     Suggestion.suggested_response := js "Thanks!";
     Suggestion.status := pending; Suggestion.metadata := None;
     Suggestion.created_at := 1500%Z; Suggestion.updated_at := 1500%Z |}.
End Situation.

(* ===================================================================== *)
(** * Part II.  Properties                                                 *)
(* ===================================================================== *)

(** ** The change-feed handler *)

Section Reconciler.
Implicit Types (store : list SuggestionState) (r : AIMessageSuggestion).

Lemma ids_app store1 store2 : ids (store1 ++ store2) = ids store1 ++ ids store2.
Proof. apply map_app. Qed.

Lemma existsb_sid store i :
  existsb (fun s => bool_decide (sid s = i)) store = bool_decide (i ∈ ids store).
Proof.
  induction store as [|s store IH]; [done|].
  cbn [existsb]. rewrite IH. unfold ids; cbn [map].
  destruct (decide (sid s = i)) as [<-|Hne].
  - rewrite bool_decide_eq_true_2 by done. cbn [orb].
    symmetry. apply bool_decide_eq_true. left.
  - rewrite (bool_decide_eq_false_2 (sid s = i)) by done. cbn [orb].
    apply bool_decide_ext. rewrite elem_of_cons.
    split; [by right | intros [?|?]; [congruence | done]].
Qed.

(** Filtering an identifier out removes it, and nothing else. *)
Lemma ids_filter_ne store i :
  ids (filter (fun s => sid s <> i) store) = filter (fun j => j <> i) (ids store).
Proof.
  induction store as [|s store IH]; [done|].
  unfold ids in *; simpl. rewrite !filter_cons.
  destruct (decide (sid s <> i)); simpl; by rewrite IH.
Qed.

Lemma removed_absent store i : i ∉ ids (filter (fun s => sid s <> i) store).
Proof. rewrite ids_filter_ne, list_elem_of_filter. by intros [? _]. Qed.

Lemma filter_absent store i : i ∉ ids store -> filter (fun s => sid s <> i) store = store.
Proof.
  induction store as [|s store IH]; [done|].
  unfold ids; simpl. rewrite not_elem_of_cons. intros [Hne Hni].
  rewrite filter_cons_True by done. f_equal. by apply IH.
Qed.

(** Replacing the record of the matching entries keeps every identifier. *)
Lemma ids_replace store r :
  ids (map (fun s => if bool_decide (sid s = Suggestion.id r)
                     then SuggestionState.with_suggestion r s else s) store)
  = ids store.
Proof.
  induction store as [|s store IH]; [done|].
  unfold ids in *; simpl. rewrite IH. f_equal.
  case_bool_decide; done.
Qed.

Lemma replace_absent store r :
  Suggestion.id r ∉ ids store ->
  map (fun s => if bool_decide (sid s = Suggestion.id r)
                then SuggestionState.with_suggestion r s else s) store
  = store.
Proof.
  induction store as [|s store IH]; [done|].
  unfold ids; simpl. rewrite not_elem_of_cons. intros [Hne Hni].
  rewrite bool_decide_eq_false_2 by done. f_equal. by apply IH.
Qed.

Lemma update_pending_unfold store r :
  Suggestion.status r <> accepted -> Suggestion.status r <> rejected ->
  on_postgres_changes (UPDATE r) store
  = map (fun s => if bool_decide (sid s = Suggestion.id r)
                  then SuggestionState.with_suggestion r s else s) store.
Proof.
  intros Ha Hr. simpl.
  rewrite !bool_decide_eq_false_2 by done. done.
Qed.

Lemma update_terminal_unfold store r :
  Suggestion.status r = accepted \/ Suggestion.status r = rejected ->
  on_postgres_changes (UPDATE r) store
  = filter (fun s => sid s <> Suggestion.id r) store.
Proof.
  intros [H|H]; simpl; rewrite H; done.
Qed.

(** The handler keeps the store free of duplicate identifiers. *)
Lemma on_postgres_changes_NoDup payload store :
  NoDup (ids store) -> NoDup (ids (on_postgres_changes payload store)).
Proof.
  intros Hnd. destruct payload as [r|i|r]; simpl.
  - rewrite existsb_sid. case_bool_decide as Hin; [done|].
    rewrite ids_app. apply NoDup_app. split; [done|]. split.
    + intros x Hx Hx'. apply list_elem_of_singleton in Hx'. by subst.
    + apply NoDup_singleton.
  - rewrite ids_filter_ne. by apply NoDup_filter.
  - destruct (_ || _).
    + rewrite ids_filter_ne. by apply NoDup_filter.
    + by rewrite ids_replace.
Qed.

Lemma deliver_NoDup feed store :
  NoDup (ids store) -> NoDup (ids (deliver feed store)).
Proof.
  revert store. induction feed as [|p feed IH]; intros store Hnd; [done|].
  simpl. apply IH. by apply on_postgres_changes_NoDup.
Qed.

End Reconciler.

(** C8.  An [INSERT] notification for a record whose identifier the store
    already holds leaves the store as it is (same entries, same order, hence
    same size); for an identifier the store does not hold, the record is
    appended at the end, shown as a [success] entry. *)
Theorem insert_event_discarded_or_appended
    (store : list SuggestionState) (newSuggestion : AIMessageSuggestion) :
  (Suggestion.id newSuggestion ∈ ids store ->
   on_postgres_changes (INSERT newSuggestion) store = store) /\
  (Suggestion.id newSuggestion ∉ ids store ->
   on_postgres_changes (INSERT newSuggestion) store = store ++ [fresh_entry newSuggestion]).
Proof.
  unfold on_postgres_changes. rewrite existsb_sid. split; intros Hin.
  - by rewrite bool_decide_eq_true_2.
  - by rewrite bool_decide_eq_false_2.
Qed.

Lemma insert_event_discarded_or_appended_witness :
  on_postgres_changes (INSERT Sample.s1) [Sample.shown Sample.s1; Sample.shown Sample.s2]
  = [Sample.shown Sample.s1; Sample.shown Sample.s2]
  /\ on_postgres_changes (INSERT Sample.s2) [Sample.shown Sample.s1]
     = [Sample.shown Sample.s1] ++ [fresh_entry Sample.s2].
Proof.
  split.
  - apply (proj1 (insert_event_discarded_or_appended
                    [Sample.shown Sample.s1; Sample.shown Sample.s2] Sample.s1)).
    vm_compute. left.
  - apply (proj2 (insert_event_discarded_or_appended [Sample.shown Sample.s1] Sample.s2)).
    vm_compute. intros H. apply list_elem_of_singleton in H. discriminate H.
Defined.

(** C9.  After an [UPDATE] notification whose record is accepted or rejected,
    the store holds no entry with the record's identifier, whatever it held
    before. *)
Theorem terminal_update_removes
    (store : list SuggestionState) (updatedSuggestion : AIMessageSuggestion) :
  Suggestion.status updatedSuggestion = accepted
  \/ Suggestion.status updatedSuggestion = rejected ->
  Suggestion.id updatedSuggestion
    ∉ ids (on_postgres_changes (UPDATE updatedSuggestion) store).
Proof.
  intros Hterminal. rewrite update_terminal_unfold by done.
  apply removed_absent.
Qed.

Lemma terminal_update_removes_witness :
  Suggestion.id Sample.s1_accepted
    ∉ ids (on_postgres_changes (UPDATE Sample.s1_accepted)
             [Sample.shown Sample.s1; Sample.shown Sample.s2]).
Proof.
  apply (terminal_update_removes
           [Sample.shown Sample.s1; Sample.shown Sample.s2] Sample.s1_accepted).
  left. reflexivity.
Defined.

(** C1, as the code has it.  An [UPDATE] notification whose record is neither
    accepted nor rejected replaces, in place, the record of every entry that
    carries its identifier: the identifiers of the store and their order are
    as before, and each entry with that identifier now shows the new record.
    A store that does not hold the identifier is left unchanged: the record
    is not inserted. *)
Theorem pending_update_replaces_in_place
    (store : list SuggestionState) (updatedSuggestion : AIMessageSuggestion) :
  Suggestion.status updatedSuggestion <> accepted ->
  Suggestion.status updatedSuggestion <> rejected ->
  let store' := on_postgres_changes (UPDATE updatedSuggestion) store in
  ids store' = ids store
  /\ (forall s', s' ∈ store' -> sid s' = Suggestion.id updatedSuggestion ->
                 SuggestionState.suggestion s' = updatedSuggestion)
  /\ (Suggestion.id updatedSuggestion ∉ ids store -> store' = store).
Proof.
  intros Ha Hr store'. subst store'.
  rewrite update_pending_unfold by done.
  split; [apply ids_replace|]. split; [|apply replace_absent].
  intros s' Hin Hid. apply list_elem_of_fmap in Hin as (s & -> & _).
  case_bool_decide as Hs; [done|]. contradiction.
Qed.

Lemma pending_update_replaces_in_place_witness :
  let store' := on_postgres_changes (UPDATE Sample.s1_reworded)
                  [Sample.shown Sample.s1; Sample.shown Sample.s2] in
  ids store' = ids [Sample.shown Sample.s1; Sample.shown Sample.s2]
  /\ (forall s', s' ∈ store' -> sid s' = Suggestion.id Sample.s1_reworded ->
                 SuggestionState.suggestion s' = Sample.s1_reworded)
  /\ (Suggestion.id Sample.s1_reworded
        ∉ ids [Sample.shown Sample.s1; Sample.shown Sample.s2] ->
      store' = [Sample.shown Sample.s1; Sample.shown Sample.s2]).
Proof.
  apply (pending_update_replaces_in_place
           [Sample.shown Sample.s1; Sample.shown Sample.s2] Sample.s1_reworded);
    discriminate.
Defined.

(** C1, as stated, fails.  [s1] is pending and the store holds only [s2]; the
    notification leaves the store without [s1].  Likewise, once a terminal
    update has removed [s1], a later pending update does not bring it back. *)
Lemma pending_update_of_absent_id_not_inserted :
  Suggestion.status Sample.s1 <> accepted
  /\ Suggestion.status Sample.s1 <> rejected
  /\ (Suggestion.id Sample.s1 ∉ ids [Sample.shown Sample.s2])
  /\ (Suggestion.id Sample.s1
       ∉ ids (on_postgres_changes (UPDATE Sample.s1) [Sample.shown Sample.s2]))
  /\ (Suggestion.id Sample.s1
       ∉ ids (deliver [UPDATE Sample.s1_accepted; UPDATE Sample.s1]
                [Sample.shown Sample.s1; Sample.shown Sample.s2])).
Proof.
  repeat split; try discriminate;
    vm_compute; intros H; apply list_elem_of_singleton in H; discriminate H.
Qed.

(** ** [storeFeedback] *)

Ltac run_monad :=
  unfold storeFeedback, select_suggestion, select_ticket, update_suggestion,
    insert_feedback_event, Date_now, sleep, throw, gets, modify,
    mbind, mret, M_bind, M_ret; simpl.

(** Runs [storeFeedback] up to its first write. *)
Ltac run_to_writes H :=
  let Hu := fresh "Hu" in
  let Hne := fresh "Hne" in
  let Hs := fresh "Hs" in
  let Ht := fresh "Ht" in
  destruct H as (Hu & Hne & Hs & Ht);
  run_monad; rewrite Hu; simpl;
  rewrite (bool_decide_eq_false_2 _ Hne); simpl;
  rewrite Hs; simpl; rewrite Ht; simpl.

(** Splits a run of [storeFeedback] into the ways it can end. *)
Ltac run_cases :=
  match goal with
  | |- context [truthy_string (user_id ?w)] =>
      destruct (truthy_string (user_id w)); simpl;
      [ destruct (single (filter _ (ai_suggestions (db w)))); simpl;
        [ destruct (single (filter _ (tickets (db w)))); simpl;
          [ destruct (update_answer w); simpl;
            [ | destruct (insert_answer w); simpl ]
          | ]
        | ]
      | ]
  end.

Section StoreFeedback.
Implicit Types (fb : AIFeedback) (w : World) (e : PostgrestError).

(** The recorder never touches the local store. *)
Lemma storeFeedback_store fb w : store (storeFeedback fb w).1 = store w.
Proof.
  run_monad. by run_cases.
Qed.

(** Either the table of suggestions is as it was, or the status update went
    through. *)
Lemma storeFeedback_ai_suggestions fb w :
  ai_suggestions (db (storeFeedback fb w).1) = ai_suggestions (db w)
  \/ ai_suggestions (db (storeFeedback fb w).1)
     = status_updated (Feedback.suggestion_id fb)
         (new_status_of (Feedback.feedback_type fb)) (stamp w)
         (ai_suggestions (db w)).
Proof.
  run_monad. run_cases; auto.
Qed.

Lemma new_status_of_terminal (ty : FeedbackType) :
  new_status_of ty = accepted \/ new_status_of ty = rejected.
Proof. unfold new_status_of. case_bool_decide; auto. Qed.

Lemma new_status_of_not_approval (ty : FeedbackType) :
  ty <> approval -> new_status_of ty = rejected.
Proof. intros H. unfold new_status_of. by rewrite bool_decide_eq_false_2. Qed.

(** The row found before the update is found after it, with the new status
    and stamp. *)
Lemma single_status_updated id st now (rows : list AIMessageSuggestion) s :
  single (filter (fun r => Suggestion.id r = id) rows) = Some s ->
  single (filter (fun r => Suggestion.id r = id) (status_updated id st now rows))
  = Some (Suggestion.with_status st now s).
Proof.
  assert (Hf : filter (fun r => Suggestion.id r = id) (status_updated id st now rows)
               = map (Suggestion.with_status st now)
                   (filter (fun r => Suggestion.id r = id) rows)).
  { induction rows as [|r rows IH]; [done|].
    unfold status_updated in *. simpl. rewrite !filter_cons.
    case_bool_decide as Hid.
    - rewrite !decide_True by done. simpl. by rewrite IH.
    - rewrite !decide_False by done. done. }
  rewrite Hf. destruct (filter _ rows) as [|r [|r' l]]; simpl; congruence.
Qed.

Lemma status_updated_rows id st now (rows : list AIMessageSuggestion) :
  Forall2 (fun old new =>
             new = old
             \/ (Suggestion.id old = id /\ new = Suggestion.with_status st now old))
          rows (status_updated id st now rows).
Proof.
  induction rows as [|r rows IH]; simpl; constructor; [|done].
  case_bool_decide; auto.
Qed.

(** Step A refused. *)
Lemma storeFeedback_update_refused fb w uid s t e :
  reaches_writes fb w uid s t -> update_answer w = Some e ->
  (storeFeedback fb w).2 = inl (Postgrest e)
  /\ db (storeFeedback fb w).1 = db w
  /\ last (langfuse (storeFeedback fb w).1)
     = Some (Langfuse.span_update "update-suggestion-status"
               Langfuse.level_error (Some e)).
Proof.
  intros H Ha. run_to_writes H. rewrite Ha. simpl.
  split; [done|]. split; [done|].
  by rewrite last_snoc.
Qed.

(** Step A let through, Step B refused. *)
Lemma storeFeedback_insert_refused fb w uid s t e :
  reaches_writes fb w uid s t -> update_answer w = None -> insert_answer w = Some e ->
  (storeFeedback fb w).2 = inl (Postgrest e)
  /\ ai_suggestions (db (storeFeedback fb w).1)
     = status_updated (Feedback.suggestion_id fb)
         (new_status_of (Feedback.feedback_type fb)) (stamp w)
         (ai_suggestions (db w))
  /\ ai_feedback_events (db (storeFeedback fb w).1) = ai_feedback_events (db w)
  /\ last (langfuse (storeFeedback fb w).1)
     = Some (Langfuse.span_update "store-feedback-event"
               Langfuse.level_error (Some e)).
Proof.
  intros H Ha Hb. run_to_writes H. rewrite Ha. simpl. rewrite Hb. simpl.
  split; [done|]. split; [done|]. split; [done|].
  by rewrite last_snoc.
Qed.

(** Both writes let through. *)
Lemma storeFeedback_recorded fb w uid s t :
  reaches_writes fb w uid s t -> update_answer w = None -> insert_answer w = None ->
  (storeFeedback fb w).2 = inr tt
  /\ ai_suggestions (db (storeFeedback fb w).1)
     = status_updated (Feedback.suggestion_id fb)
         (new_status_of (Feedback.feedback_type fb)) (stamp w)
         (ai_suggestions (db w))
  /\ ai_feedback_events (db (storeFeedback fb w).1)
     = ai_feedback_events (db w)
         ++ [feedback_event_row fb uid (next_trace_id w) (stamp w)]
  /\ exists metadata,
       Langfuse.trace_update
         (trace_output s fb (stamp w)
            (clock w (S (S (clock_reads w))) - clock w (S (clock_reads w)))
            (stamp w - Suggestion.created_at s))
         metadata
       ∈ langfuse (storeFeedback fb w).1.
Proof.
  intros H Ha Hb. run_to_writes H. rewrite Ha. simpl. rewrite Hb. simpl.
  split; [done|]. split; [done|]. split; [done|].
  eexists. rewrite !elem_of_app, !list_elem_of_singleton. left. right. reflexivity.
Qed.

End StoreFeedback.

Section FeedbackClaims.
Implicit Types (fb : AIFeedback) (w : World) (e : PostgrestError).

(** On the sample ticket every submission about [s1] reaches the writes. *)
Lemma sample_reaches_writes rows fb a b (s : AIMessageSuggestion) :
  Feedback.suggestion_id fb = "s1" -> Feedback.ticket_id fb = "t1" ->
  single (filter (fun r => Suggestion.id r = "s1") rows) = Some s ->
  reaches_writes fb (Sample.world_with rows a b) "agent-7" s Sample.t1.
Proof.
  intros Hs Ht Hrow. unfold reaches_writes. rewrite Hs, Ht.
  repeat split; [discriminate | exact Hrow].
Qed.

(** C2, as the code has it.  [storeFeedback] does not validate the reason.  A
    submission that is not an approval and whose reason is absent or empty
    is recorded like any other: when an agent is signed in, the suggestion
    and the ticket are found and the remote store lets both writes through,
    the call returns normally, the suggestion is marked rejected, and one
    FeedbackEvent is inserted, its [feedback_reason] being [null]. *)
Theorem missing_reason_is_recorded_as_null fb w uid s t :
  Feedback.feedback_type fb <> approval ->
  Feedback.feedback_reason fb = None \/ Feedback.feedback_reason fb = Some "" ->
  reaches_writes fb w uid s t ->
  update_answer w = None -> insert_answer w = None ->
  (storeFeedback fb w).2 = inr tt
  /\ ai_suggestions (db (storeFeedback fb w).1)
     = status_updated (Feedback.suggestion_id fb) rejected (stamp w)
         (ai_suggestions (db w))
  /\ exists row,
       ai_feedback_events (db (storeFeedback fb w).1)
       = ai_feedback_events (db w) ++ [row]
       /\ FeedbackEvent.suggestion_id row = Feedback.suggestion_id fb
       /\ FeedbackEvent.feedback_type row = Feedback.feedback_type fb
       /\ FeedbackEvent.feedback_reason row = None.
Proof.
  intros Hty Hreason Hready Ha Hb.
  destruct (storeFeedback_recorded fb w uid s t Hready Ha Hb) as (Hr & Hrows & Hev & _).
  rewrite (new_status_of_not_approval _ Hty) in Hrows.
  split; [done|]. split; [done|].
  eexists. split; [exact Hev|]. simpl.
  split; [done|]. split; [done|].
  destruct Hreason as [-> | ->]; reflexivity.
Qed.

Lemma missing_reason_is_recorded_as_null_witness :
  let run := storeFeedback Sample.rejection_without_reason (Sample.world None None) in
  run.2 = inr tt
  /\ ai_suggestions (db run.1)
     = status_updated "s1" rejected 5000%Z [Sample.s1; Sample.s2]
  /\ exists row,
       ai_feedback_events (db run.1) = [] ++ [row]
       /\ FeedbackEvent.suggestion_id row = "s1"
       /\ FeedbackEvent.feedback_type row = rejection
       /\ FeedbackEvent.feedback_reason row = None.
Proof.
  apply (missing_reason_is_recorded_as_null
           Sample.rejection_without_reason (Sample.world None None)
           "agent-7" Sample.s1 Sample.t1).
  - discriminate.
  - left. reflexivity.
  - apply sample_reaches_writes; reflexivity.
  - reflexivity.
  - reflexivity.
Defined.

(** C2, as stated, fails.  A rejection without a reason, submitted for the
    pending suggestion [s1]: no validation error, the remote status becomes
    rejected and a FeedbackEvent with a [null] reason is inserted. *)
Lemma rejection_without_reason_is_not_refused :
  let run := storeFeedback Sample.rejection_without_reason (Sample.world None None) in
  Feedback.feedback_type Sample.rejection_without_reason = rejection
  /\ Feedback.feedback_reason Sample.rejection_without_reason = None
  /\ run.2 = inr tt
  /\ map Suggestion.status (ai_suggestions (db (Sample.world None None)))
     = [pending; pending]
  /\ map Suggestion.status (ai_suggestions (db run.1)) = [rejected; pending]
  /\ map FeedbackEvent.feedback_reason (ai_feedback_events (db run.1)) = [None].
Proof. vm_compute. repeat split. Qed.

(** C4, as the code has it.  A feedback-recording operation never makes a
    suggestion pending, and it does not consult the status the suggestion
    has: every row of [ai_suggestions] is either left as it was or, if it
    carries the identifier of the submission, is given the status accepted
    (approval) or rejected (any other type) with the stamp of the operation.
    When the suggestion and the ticket are found and the status update is let
    through, the suggestion ends in that status whatever its status was
    before, so accepted to rejected and rejected to accepted do happen. *)
Theorem feedback_sets_status_from_type_only fb w :
  let target := new_status_of (Feedback.feedback_type fb) in
  let w' := (storeFeedback fb w).1 in
  target <> pending
  /\ Forall2 (fun old new =>
                new = old
                \/ (Suggestion.id old = Feedback.suggestion_id fb
                    /\ new = Suggestion.with_status target (stamp w) old))
             (ai_suggestions (db w)) (ai_suggestions (db w'))
  /\ (forall uid s t,
        reaches_writes fb w uid s t -> update_answer w = None ->
        single (filter (fun r => Suggestion.id r = Feedback.suggestion_id fb)
                       (ai_suggestions (db w')))
        = Some (Suggestion.with_status target (stamp w) s)).
Proof.
  intros target w'. subst target w'. split; [|split].
  - destruct (new_status_of_terminal (Feedback.feedback_type fb)) as [-> | ->];
      discriminate.
  - destruct (storeFeedback_ai_suggestions fb w) as [-> | ->].
    + apply Forall2_same_length_lookup. split; [done|].
      intros i x y Hx Hy. left. congruence.
    + apply status_updated_rows.
  - intros uid s t Hready Ha.
    assert (Hrows : ai_suggestions (db (storeFeedback fb w).1)
                    = status_updated (Feedback.suggestion_id fb)
                        (new_status_of (Feedback.feedback_type fb)) (stamp w)
                        (ai_suggestions (db w))).
    { destruct (insert_answer w) as [e|] eqn:Hb.
      - by destruct (storeFeedback_insert_refused fb w uid s t e Hready Ha Hb)
          as (_ & ? & _).
      - by destruct (storeFeedback_recorded fb w uid s t Hready Ha Hb)
          as (_ & ? & _). }
    rewrite Hrows. apply single_status_updated. by destruct Hready as (_ & _ & ? & _).
Qed.

Lemma feedback_sets_status_from_type_only_witness :
  single (filter (fun r => Suggestion.id r = "s1")
            (ai_suggestions
               (db (storeFeedback Sample.rejection_off_topic
                      (Sample.world_with [Sample.s1_accepted; Sample.s2] None None)).1)))
  = Some (Suggestion.with_status rejected 5000%Z Sample.s1_accepted).
Proof.
  apply (proj2 (proj2 (feedback_sets_status_from_type_only
                         Sample.rejection_off_topic
                         (Sample.world_with [Sample.s1_accepted; Sample.s2] None None)))
           "agent-7" Sample.s1_accepted Sample.t1).
  - apply sample_reaches_writes; reflexivity.
  - reflexivity.
Defined.

(** C4, as stated, fails.  [s1] is already accepted; a rejection recorded for
    it goes through and moves it from accepted to rejected. *)
Lemma accepted_suggestion_becomes_rejected :
  let w := Sample.world_with [Sample.s1_accepted; Sample.s2] None None in
  let run := storeFeedback Sample.rejection_off_topic w in
  map Suggestion.status (ai_suggestions (db w)) = [accepted; pending]
  /\ run.2 = inr tt
  /\ map Suggestion.status (ai_suggestions (db run.1)) = [rejected; pending].
Proof. vm_compute. repeat split. Qed.

(** C5.  When the status update is let through and the insert of the
    FeedbackEvent is refused, the caller gets the insert's error, no event is
    written, and the status change stays: the table holds the updated rows
    and the suggestion is found in its new status (accepted for an approval,
    rejected otherwise). *)
Theorem insert_failure_keeps_status_change fb w uid s t e :
  reaches_writes fb w uid s t ->
  update_answer w = None -> insert_answer w = Some e ->
  let w' := (storeFeedback fb w).1 in
  let target := new_status_of (Feedback.feedback_type fb) in
  (storeFeedback fb w).2 = inl (Postgrest e)
  /\ ai_suggestions (db w')
     = status_updated (Feedback.suggestion_id fb) target (stamp w)
         (ai_suggestions (db w))
  /\ single (filter (fun r => Suggestion.id r = Feedback.suggestion_id fb)
                    (ai_suggestions (db w')))
     = Some (Suggestion.with_status target (stamp w) s)
  /\ (target = accepted \/ target = rejected)
  /\ ai_feedback_events (db w') = ai_feedback_events (db w).
Proof.
  intros Hready Ha Hb w' target. subst w' target.
  destruct (storeFeedback_insert_refused fb w uid s t e Hready Ha Hb)
    as (Hr & Hrows & Hev & _).
  split; [done|]. split; [done|]. split.
  { rewrite Hrows. apply single_status_updated. by destruct Hready as (_ & _ & ? & _). }
  split; [apply new_status_of_terminal | done].
Qed.

Lemma insert_failure_keeps_status_change_witness :
  let w := Sample.world None (Some Sample.refused) in
  let w' := (storeFeedback Sample.rejection_off_topic w).1 in
  let target := new_status_of (Feedback.feedback_type Sample.rejection_off_topic) in
  (storeFeedback Sample.rejection_off_topic w).2 = inl (Postgrest Sample.refused)
  /\ ai_suggestions (db w')
     = status_updated "s1" target (stamp w) (ai_suggestions (db w))
  /\ single (filter (fun r => Suggestion.id r = "s1") (ai_suggestions (db w')))
     = Some (Suggestion.with_status target (stamp w) Sample.s1)
  /\ (target = accepted \/ target = rejected)
  /\ ai_feedback_events (db w') = ai_feedback_events (db w).
Proof.
  apply (insert_failure_keeps_status_change Sample.rejection_off_topic
           (Sample.world None (Some Sample.refused))
           "agent-7" Sample.s1 Sample.t1 Sample.refused).
  - apply sample_reaches_writes; reflexivity.
  - reflexivity.
  - reflexivity.
Defined.

(** C6.  When the status update is refused, the operation stops there: the
    caller gets the update's error, the remote tables are as they were (no
    FeedbackEvent is written, no status is changed), and the span of the
    update is the last thing reported, annotated with the error. *)
Theorem status_update_failure_aborts fb w uid s t e :
  reaches_writes fb w uid s t ->
  update_answer w = Some e ->
  let w' := (storeFeedback fb w).1 in
  (storeFeedback fb w).2 = inl (Postgrest e)
  /\ ai_feedback_events (db w') = ai_feedback_events (db w)
  /\ db w' = db w
  /\ last (langfuse w')
     = Some (Langfuse.span_update "update-suggestion-status"
               Langfuse.level_error (Some e)).
Proof.
  intros Hready Ha w'. subst w'.
  destruct (storeFeedback_update_refused fb w uid s t e Hready Ha)
    as (Hr & Hdb & Hlog).
  split; [done|]. split; [by rewrite Hdb|]. split; done.
Qed.

Lemma status_update_failure_aborts_witness :
  let w := Sample.world (Some Sample.refused) None in
  let w' := (storeFeedback Sample.rejection_off_topic w).1 in
  (storeFeedback Sample.rejection_off_topic w).2 = inl (Postgrest Sample.refused)
  /\ ai_feedback_events (db w') = ai_feedback_events (db w)
  /\ db w' = db w
  /\ last (langfuse w')
     = Some (Langfuse.span_update "update-suggestion-status"
               Langfuse.level_error (Some Sample.refused)).
Proof.
  apply (status_update_failure_aborts Sample.rejection_off_topic
           (Sample.world (Some Sample.refused) None)
           "agent-7" Sample.s1 Sample.t1 Sample.refused).
  - apply sample_reaches_writes; reflexivity.
  - reflexivity.
Defined.

(** A run that returns normally got through every check and both writes. *)
Lemma storeFeedback_returns_inv fb w :
  (storeFeedback fb w).2 = inr tt ->
  exists uid s t,
    reaches_writes fb w uid s t /\ update_answer w = None /\ insert_answer w = None.
Proof.
  unfold reaches_writes. run_monad.
  destruct (user_id w) as [uid|] eqn:Hu; simpl; [|discriminate].
  case_bool_decide as Hne; simpl; [discriminate|].
  destruct (single (filter _ (ai_suggestions (db w)))) as [s|] eqn:Hs;
    simpl; [|discriminate].
  destruct (single (filter _ (tickets (db w)))) as [t|] eqn:Ht;
    simpl; [|discriminate].
  destruct (update_answer w) eqn:Ha; simpl; [discriminate|].
  destruct (insert_answer w) eqn:Hb; simpl; [discriminate|].
  intros _. exists uid, s, t. done.
Qed.

(** C10.  In every run of [storeFeedback] that returns normally, exactly one
    FeedbackEvent is inserted; it is [feedback_event_row], built from the
    submission, the agent, the trace identifier and the stamp alone, and its
    [time_to_feedback] is the text ["0 seconds"].  The time that really
    passed since the suggestion was created (stamp minus its [created_at])
    appears in the output of the trace update, as [time_to_feedback_ms]. *)
Theorem stored_time_to_feedback_is_zero_seconds fb w :
  (storeFeedback fb w).2 = inr tt ->
  let w' := (storeFeedback fb w).1 in
  (exists row uid,
     ai_feedback_events (db w') = ai_feedback_events (db w) ++ [row]
     /\ row = feedback_event_row fb uid (next_trace_id w) (stamp w)
     /\ FeedbackEvent.time_to_feedback row = "0 seconds")
  /\ (exists s output metadata,
        single (filter (fun r => Suggestion.id r = Feedback.suggestion_id fb)
                       (ai_suggestions (db w))) = Some s
        /\ Langfuse.trace_update output metadata ∈ langfuse w'
        /\ Langfuse.time_to_feedback_ms
             (Langfuse.metrics (Langfuse.feedback_result output))
           = (stamp w - Suggestion.created_at s)%Z).
Proof.
  intros Hreturns w'. subst w'.
  destruct (storeFeedback_returns_inv fb w Hreturns) as (uid & s & t & Hready & Ha & Hb).
  destruct (storeFeedback_recorded fb w uid s t Hready Ha Hb)
    as (_ & _ & Hev & (metadata & Hlog)).
  split.
  - eexists _, uid. split; [exact Hev|]. split; reflexivity.
  - exists s. eexists _, metadata.
    split; [by destruct Hready as (_ & _ & ? & _)|].
    split; [exact Hlog|]. reflexivity.
Qed.

Lemma stored_time_to_feedback_is_zero_seconds_witness :
  let w := Sample.world None None in
  let w' := (storeFeedback Sample.approval_of_s1 w).1 in
  (exists row uid,
     ai_feedback_events (db w') = ai_feedback_events (db w) ++ [row]
     /\ row = feedback_event_row Sample.approval_of_s1 uid (next_trace_id w) (stamp w)
     /\ FeedbackEvent.time_to_feedback row = "0 seconds")
  /\ (exists s output metadata,
        single (filter (fun r => Suggestion.id r = "s1") (ai_suggestions (db w)))
        = Some s
        /\ Langfuse.trace_update output metadata ∈ langfuse w'
        /\ Langfuse.time_to_feedback_ms
             (Langfuse.metrics (Langfuse.feedback_result output))
           = (stamp w - Suggestion.created_at s)%Z).
Proof.
  apply (stored_time_to_feedback_is_zero_seconds Sample.approval_of_s1
           (Sample.world None None)).
  reflexivity.
Defined.

End FeedbackClaims.

(** ** Optimistic rejection and its rollback *)

Section Reject.
Implicit Types (store : list SuggestionState) (w : World).

(** In a store without duplicate identifiers, [find] by identifier returns
    the one entry that carries it. *)
Lemma find_by_id store s :
  NoDup (ids store) -> s ∈ store ->
  find (fun s' => bool_decide (sid s' = sid s)) store = Some s.
Proof.
  induction store as [|x store IH]; intros Hnd Hin.
  - by apply elem_of_nil in Hin.
  - unfold ids in Hnd; simpl in Hnd. apply NoDup_cons in Hnd as [Hx Hnd].
    apply elem_of_cons in Hin as [-> | Hin]; simpl.
    + by rewrite bool_decide_eq_true_2.
    + rewrite bool_decide_eq_false_2; [by apply IH|].
      intros Heq. apply Hx. rewrite Heq. by apply list_elem_of_fmap_2.
Qed.

Lemma rejectSuggestion_unfold ticketId suggestions feed i reason additional w :
  rejectSuggestion ticketId suggestions feed i reason additional w
  = let remote := remote_call_of_reject ticketId i reason additional w in
    let w1 := set_store (deliver feed) remote.1 in
    match remote.2 with
    | inl error =>
        match find (fun s => bool_decide (sid s = i)) suggestions with
        | Some failedSuggestion =>
            (set_store (fun current => current ++ [failedSuggestion]) w1, inl error)
        | None => (w1, inl error)
        end
    | inr a => (w1, inr a)
    end.
Proof.
  unfold rejectSuggestion, remote_call_of_reject, rejection_submitted, stamp,
    try_catch, awaiting, setSuggestions, modify, Date_now, throw,
    mbind, mret, M_bind, M_ret.
  simpl.
  destruct (storeFeedback _ _) as [w' [err|[]]]; simpl; [|done].
  by destruct (find _ suggestions).
Qed.

(** X27.  Given a local store that holds each identifier once and a
    [reject] callback that captured that very store, [reject] called for the
    identifier of a suggestion [s] of the store behaves as follows.  If the
    remote recording fails, the caller gets that very error and the store
    afterwards holds [s] again, unchanged: it is what the change feed made
    of the store without [s], with [s] appended.  If the remote recording
    succeeds, nothing is put back: the store is what the change feed made of
    the store without [s], and with a silent feed the identifier is gone. *)
Theorem reject_rolls_back_on_failure ticketId feed reason additional w s :
  s ∈ store w -> NoDup (ids (store w)) ->
  let remote := remote_call_of_reject ticketId (sid s) reason additional w in
  let run := rejectSuggestion ticketId (store w) feed (sid s) reason additional w in
  let without := filter (fun s' => sid s' <> sid s) (store w) in
  (forall error, remote.2 = inl error ->
     run.2 = inl error
     /\ s ∈ store run.1
     /\ store run.1 = deliver feed without ++ [s])
  /\ (remote.2 = inr tt ->
      run.2 = inr tt
      /\ store run.1 = deliver feed without
      /\ (feed = [] -> sid s ∉ ids (store run.1))).
Proof.
  intros Hin Hnd remote run without. subst run.
  rewrite rejectSuggestion_unfold. fold remote. cbv zeta.
  assert (Hstore : store remote.1 = without).
  { subst remote. unfold remote_call_of_reject. by rewrite storeFeedback_store. }
  rewrite (find_by_id _ _ Hnd Hin).
  split.
  - intros error ->. simpl. rewrite Hstore.
    split; [done|]. split; [|done].
    apply elem_of_app. right. apply list_elem_of_singleton. done.
  - intros ->. simpl. rewrite Hstore.
    split; [done|]. split; [done|].
    intros ->. simpl. apply removed_absent.
Qed.

Lemma reject_rolls_back_on_failure_witness :
  let w := Sample.world (Some Sample.refused) None in
  let s := Sample.shown Sample.s1 in
  let run := rejectSuggestion "t1" (store w) [] (sid s) "off-topic" None w in
  run.2 = inl (Postgrest Sample.refused)
  /\ s ∈ store run.1
  /\ store run.1 = [Sample.shown Sample.s2; Sample.shown Sample.s1].
Proof.
  assert (Hnd : NoDup (ids (store (Sample.world (Some Sample.refused) None)))).
  { vm_compute. apply NoDup_cons. split.
    - intros H. apply list_elem_of_singleton in H. discriminate H.
    - apply NoDup_singleton. }
  apply (proj1 (reject_rolls_back_on_failure "t1" [] "off-topic" None
                  (Sample.world (Some Sample.refused) None)
                  (Sample.shown Sample.s1) (list_elem_of_here _ _) Hnd)
           (Postgrest Sample.refused)).
  reflexivity.
Defined.

(** C3, where the code falls short of it.  The rollback of [reject] looks
    the suggestion up by identifier in the list its callback captured and
    appends what it finds; it does not put back what it removed.  Two runs on
    the sample ticket, the remote recording failing each time:
    - the store shows [s1] and [s2], the callback is one of an earlier
      render, when [s1] read differently ([s1_reworded]): afterwards the
      store shows [s2] and [s1_reworded], and [s1] as it was shown is gone;
    - the callback is up to date, but an [INSERT] notification for the
      identifier arrives during the first call, so that the store holds the
      identifier twice; a second call then puts back the first of the two
      only, and [s1] as it was shown is gone. *)
Theorem failed_reject_loses_the_shown_suggestion :
  let w := Sample.world (Some Sample.refused) None in
  let captured := [Sample.shown Sample.s1_reworded; Sample.shown Sample.s2] in
  let run := rejectSuggestion "t1" captured [] "s1" "off-topic" None w in
  let first := rejectSuggestion "t1" (store w) [INSERT Sample.s1_reworded]
                 "s1" "off-topic" None w in
  let second := rejectSuggestion "t1" (store first.1) [] "s1" "off-topic" None first.1 in
  ((Sample.shown Sample.s1 ∈ store w)
   /\ (remote_call_of_reject "t1" "s1" "off-topic" None w).2
      = inl (Postgrest Sample.refused)
   /\ run.2 = inl (Postgrest Sample.refused)
   /\ store run.1 = [Sample.shown Sample.s2; Sample.shown Sample.s1_reworded]
   /\ (Sample.shown Sample.s1 ∉ store run.1))
  /\ (store first.1
      = [Sample.shown Sample.s2; fresh_entry Sample.s1_reworded; Sample.shown Sample.s1]
      /\ (Sample.shown Sample.s1 ∈ store first.1)
      /\ (remote_call_of_reject "t1" "s1" "off-topic" None first.1).2
         = inl (Postgrest Sample.refused)
      /\ second.2 = inl (Postgrest Sample.refused)
      /\ store second.1 = [Sample.shown Sample.s2; fresh_entry Sample.s1_reworded]
      /\ (Sample.shown Sample.s1 ∉ store second.1)).
Proof.
  assert (Hne2 : Sample.shown Sample.s1 <> Sample.shown Sample.s2) by discriminate.
  assert (Hne1 : Sample.shown Sample.s1 <> Sample.shown Sample.s1_reworded)
    by discriminate.
  assert (Hout : Sample.shown Sample.s1
                 ∉ [Sample.shown Sample.s2; Sample.shown Sample.s1_reworded]).
  { intros H. apply elem_of_cons in H as [H|H]; [done|].
    apply list_elem_of_singleton in H. done. }
  cbv zeta. split.
  - split; [left|]. split; [reflexivity|]. split; [reflexivity|].
    split; [reflexivity|]. exact Hout.
  - split; [reflexivity|]. split; [do 2 right; left|]. split; [reflexivity|].
    split; [reflexivity|]. split; [reflexivity|]. exact Hout.
Qed.

End Reject.

(** ** Edit distance *)

Section Levenshtein.
Implicit Types (s t u p q : jsstring) (a b c : code_unit).

Lemma Math_min_cases x y z : Math_min x y z = x \/ Math_min x y z = y \/ Math_min x y z = z.
Proof. unfold Math_min. lia. Qed.

Lemma Math_min_le x y z : Math_min x y z <= x /\ Math_min x y z <= y /\ Math_min x y z <= z.
Proof. unfold Math_min. lia. Qed.

Lemma Math_min_mono x y z x' y' z' k :
  x <= k + x' -> y <= k + y' -> z <= k + z' ->
  Math_min x y z <= k + Math_min x' y' z'.
Proof. unfold Math_min. lia. Qed.

(** The equations of the recurrence. *)
Lemma lev_nil_r s : lev s [] = length s.
Proof. by destruct s. Qed.

Lemma lev_cons a s b t :
  lev (a :: s) (b :: t)
  = if decide (a = b) then lev s t
    else S (Math_min (lev s (b :: t)) (lev (a :: s) t) (lev s t)).
Proof. reflexivity. Qed.

Lemma lev_cons_nil a s : lev (a :: s) [] = S (length s).
Proof. reflexivity. Qed.

Lemma lev_refl s : lev s s = 0.
Proof.
  induction s as [|a s IH]; [done|].
  rewrite lev_cons. by rewrite decide_True.
Qed.

(** Matching or not, the heads cost at most one operation. *)
Lemma lev_cons_le a s b t : lev (a :: s) (b :: t) <= S (lev s t).
Proof.
  rewrite lev_cons. destruct (decide (a = b)); [lia|].
  pose proof (Math_min_le (lev s (b :: t)) (lev (a :: s) t) (lev s t)). lia.
Qed.

(** One more character on either side moves the distance by at most one. *)
Lemma lev_step_bounds n : forall s t,
  length s + length t <= n ->
  (forall a, lev (a :: s) t <= S (lev s t) /\ lev s t <= S (lev (a :: s) t))
  /\ (forall b, lev s (b :: t) <= S (lev s t) /\ lev s t <= S (lev s (b :: t))).
Proof.
  induction n as [n IH] using lt_wf_ind. intros s t Hlen.
  assert (Hsmall : forall s' t', length s' + length t' < length s + length t ->
            (forall a, lev (a :: s') t' <= S (lev s' t') /\ lev s' t' <= S (lev (a :: s') t'))
            /\ (forall b, lev s' (b :: t') <= S (lev s' t') /\ lev s' t' <= S (lev s' (b :: t')))).
  { intros s' t' Hlt. apply (IH (length s' + length t')); lia. }
  split.
  - intros a. destruct t as [|b t'].
    + rewrite lev_cons_nil, lev_nil_r. lia.
    + destruct (Hsmall s t') as [H1 H2]; [simpl; lia|].
      destruct (H2 b) as [HU2 HL2]. destruct (H1 a) as [HU1 HL1].
      rewrite lev_cons. destruct (decide (a = b)) as [->|Hne]; [lia|].
      pose proof (Math_min_le (lev s (b :: t')) (lev (a :: s) t') (lev s t')).
      destruct (Math_min_cases (lev s (b :: t')) (lev (a :: s) t') (lev s t'))
        as [E|[E|E]]; rewrite E; lia.
  - intros b. destruct s as [|a s'].
    + simpl. lia.
    + destruct (Hsmall s' t) as [H1 H2]; [simpl; lia|].
      destruct (H2 b) as [HU2 HL2]. destruct (H1 a) as [HU1 HL1].
      rewrite lev_cons. destruct (decide (a = b)) as [->|Hne]; [lia|].
      pose proof (Math_min_le (lev s' (b :: t)) (lev (a :: s') t) (lev s' t)).
      destruct (Math_min_cases (lev s' (b :: t)) (lev (a :: s') t) (lev s' t))
        as [E|[E|E]]; rewrite E; lia.
Qed.

Lemma lev_delete_head a s t : lev (a :: s) t <= S (lev s t).
Proof. by apply (lev_step_bounds (length s + length t) s t). Qed.

Lemma lev_insert_head a s t : lev s t <= S (lev (a :: s) t).
Proof. by apply (lev_step_bounds (length s + length t) s t). Qed.

Lemma lev_target_grows b s t : lev s (b :: t) <= S (lev s t).
Proof. by apply (lev_step_bounds (length s + length t) s t). Qed.

Lemma lev_substitute_head a a' s t : lev (a :: s) t <= S (lev (a' :: s) t).
Proof.
  induction t as [|b t IH].
  - rewrite !lev_cons_nil. lia.
  - pose proof (lev_cons_le a s b t) as Hle.
    rewrite (lev_cons a' s b t). destruct (decide (a' = b)); [lia|].
    pose proof (lev_delete_head a s (b :: t)).
    pose proof (lev_target_grows b (a :: s) t).
    destruct (Math_min_cases (lev s (b :: t)) (lev (a' :: s) t) (lev s t))
      as [E|[E|E]]; rewrite E; lia.
Qed.

(** A bound that holds below a common head holds with the head. *)
Lemma lev_under_head c u u' :
  (forall t, lev u t <= S (lev u' t)) -> forall t, lev (c :: u) t <= S (lev (c :: u') t).
Proof.
  intros H. induction t as [|b t IH].
  - rewrite !lev_cons_nil. specialize (H []). rewrite !lev_nil_r in H. lia.
  - rewrite !lev_cons. destruct (decide (c = b)); [apply H|].
    apply le_n_S.
    apply (Math_min_mono _ _ _ _ _ _ 1); [apply H | exact IH | apply H].
Qed.

(** One operation on the source moves the distance to any target by at most
    one. *)
Lemma lev_edit1 s u : edit1 s u -> forall t, lev s t <= S (lev u t).
Proof.
  intros [p q c|p q c|p q c d]; induction p as [|x p IH]; simpl; intros t;
    try (by apply lev_under_head).
  - apply lev_insert_head.
  - apply lev_delete_head.
  - apply lev_substitute_head.
Qed.

(** No script is shorter than the recurrence says. *)
Lemma edits_lev_le n s t : edits n s t -> lev s t <= n.
Proof.
  induction 1 as [s|n s u t Hstep _ IH].
  - by rewrite lev_refl.
  - pose proof (lev_edit1 s u Hstep t). lia.
Qed.

Lemma edit1_cons c s u : edit1 s u -> edit1 (c :: s) (c :: u).
Proof.
  intros [p q x|p q x|p q x y].
  - apply (edit_insert (c :: p)).
  - apply (edit_delete (c :: p)).
  - apply (edit_substitute (c :: p)).
Qed.

Lemma edits_cons c n s t : edits n s t -> edits n (c :: s) (c :: t).
Proof.
  induction 1 as [s|n s u t Hstep _ IH]; [constructor|].
  eapply edits_S; [by apply edit1_cons | done].
Qed.

Lemma edits_insert_all t : edits (length t) [] t.
Proof.
  induction t as [|b t IH]; [constructor|]. simpl.
  eapply edits_S; [apply (edit_insert [] [] b) | by apply edits_cons].
Qed.

Lemma edits_delete_all s : edits (length s) s [].
Proof.
  induction s as [|a s IH]; [constructor|]. simpl.
  eapply edits_S; [apply (edit_delete [] s a) | done].
Qed.

(** A script as short as the recurrence says exists. *)
Lemma lev_edits s : forall t, edits (lev s t) s t.
Proof.
  induction s as [|a s IHs]; intros t; [apply edits_insert_all|].
  induction t as [|b t IHt]; [apply (edits_delete_all (a :: s))|].
  rewrite lev_cons. destruct (decide (a = b)) as [->|Hne].
  - apply edits_cons, IHs.
  - destruct (Math_min_cases (lev s (b :: t)) (lev (a :: s) t) (lev s t))
      as [E|[E|E]]; rewrite E.
    + eapply edits_S; [apply (edit_delete [] s a) | apply IHs].
    + eapply edits_S; [apply (edit_insert [] (a :: s) b) | by apply edits_cons].
    + eapply edits_S; [apply (edit_substitute [] s a b) | apply edits_cons, IHs].
Qed.

(** Scripts read backwards are scripts. *)
Lemma edit1_reverse s u : edit1 s u -> edit1 (reverse s) (reverse u).
Proof.
  intros [p q c|p q c|p q c d];
    rewrite !reverse_app, ?reverse_cons, <- ?(assoc_L (++)); simpl; constructor.
Qed.

Lemma edits_reverse n s t : edits n s t -> edits n (reverse s) (reverse t).
Proof.
  induction 1 as [s|n s u t Hstep _ IH]; [constructor|].
  eapply edits_S; [by apply edit1_reverse | done].
Qed.

End Levenshtein.

(** ** The table of [calculateEditDistance] *)

Section Table.
Implicit Types (dp : list (list nat)).

Lemma new_table_shape m n : table_shape m n (new_table m n).
Proof.
  split; [apply length_replicate|].
  intros i row Hrow. apply lookup_replicate in Hrow as [-> _].
  apply length_replicate.
Qed.

Lemma dp_set_shape m n dp i j v : table_shape m n dp -> table_shape m n (dp_set dp i j v).
Proof.
  intros [Hlen Hrows]. split; [unfold dp_set; by rewrite length_alter|].
  intros i' row'. unfold dp_set. rewrite list_lookup_alter.
  case_decide as Hi; [subst i'|apply Hrows].
  destruct (dp !! i) as [row|] eqn:Hrow; simpl; [|done].
  intros [= <-]. rewrite length_insert. by apply (Hrows i).
Qed.

(** A cell of the table exists at every index the loops use, so no read
    falls back on the default of [dp_get]. *)
Lemma dp_in_range m n dp i j :
  table_shape m n dp -> i <= m -> j <= n -> is_Some (dp !! i ≫= (.!! j)).
Proof.
  intros [Hlen Hrows] Hi Hj.
  destruct (lookup_lt_is_Some_2 dp i) as [row Hrow]; [lia|].
  rewrite Hrow. simpl. apply lookup_lt_is_Some_2.
  rewrite (Hrows i row Hrow). lia.
Qed.

(** Reading after a write in range. *)
Lemma dp_get_set m n dp i j v i' j' :
  table_shape m n dp -> i <= m -> j <= n ->
  dp_get (dp_set dp i j v) i' j'
  = if decide (i' = i /\ j' = j) then v else dp_get dp i' j'.
Proof.
  intros [Hlen Hrows] Hi Hj. unfold dp_get, dp_set.
  destruct (decide (i' = i)) as [->|Hne].
  - rewrite list_lookup_alter_eq.
    destruct (dp !! i) as [row|] eqn:Hrow; simpl.
    + pose proof (Hrows i row Hrow) as Hrowlen.
      destruct (decide (j' = j)) as [->|Hnej].
      * rewrite decide_True by done.
        rewrite list_lookup_insert_eq by lia. done.
      * rewrite decide_False by (intros [_ ?]; done).
        rewrite list_lookup_insert_ne by done. done.
    + apply lookup_ge_None in Hrow. lia.
  - rewrite list_lookup_alter_ne by done.
    rewrite decide_False by (intros [? _]; done). done.
Qed.

Lemma prefix_distance_0_l (str1 str2 : jsstring) j :
  j <= length str2 -> prefix_distance str1 str2 0 j = j.
Proof.
  intros Hj. unfold prefix_distance. rewrite take_0. simpl.
  rewrite length_reverse, length_take. lia.
Qed.

Lemma prefix_distance_0_r (str1 str2 : jsstring) i :
  i <= length str1 -> prefix_distance str1 str2 i 0 = i.
Proof.
  intros Hi. unfold prefix_distance. rewrite take_0, lev_nil_r.
  rewrite length_reverse, length_take. lia.
Qed.

Lemma reverse_take_S (str : jsstring) k c :
  str !! k = Some c -> reverse (take (S k) str) = c :: reverse (take k str).
Proof. intros H. rewrite (take_S_r _ _ _ H). apply reverse_snoc. Qed.

(** The loop body computes the prefix distance of its cell from the cells
    filled before it. *)
Lemma cell_correct (str1 str2 : jsstring) dp i j :
  filled_before str1 str2 dp i j ->
  i <= length str1 -> j <= length str2 ->
  cell str1 str2 dp i j = prefix_distance str1 str2 i j.
Proof.
  intros Hfilled Hi Hj. unfold cell.
  destruct (decide (i = 0)) as [->|Hi0]; [by rewrite prefix_distance_0_l|].
  destruct (decide (j = 0)) as [->|Hj0]; [by rewrite prefix_distance_0_r|].
  destruct i as [|i]; [done|]. destruct j as [|j]; [done|].
  replace (S i - 1) with i by lia. replace (S j - 1) with j by lia.
  destruct (lookup_lt_is_Some_2 str1 i) as [a Ha]; [lia|].
  destruct (lookup_lt_is_Some_2 str2 j) as [b Hb]; [lia|].
  rewrite !Hfilled by lia.
  unfold prefix_distance.
  rewrite (reverse_take_S str1 i a Ha), (reverse_take_S str2 j b Hb).
  rewrite lev_cons.
  destruct (decide (str1 !! i = str2 !! j)) as [Heq|Hne];
    destruct (decide (a = b)) as [Hab|Hab]; try done.
  - exfalso. apply Hab.
    assert (Some a = Some b) as [= ->]; [|done].
    rewrite <- Ha, <- Hb. exact Heq.
  - exfalso. apply Hne. subst b.
    transitivity (Some a); [exact Ha | symmetry; exact Hb].
Qed.

(** One turn of the inner loop. *)
Lemma inner_step (str1 str2 : jsstring) dp i j :
  table_shape (length str1) (length str2) dp ->
  i <= length str1 -> j <= length str2 ->
  filled_before str1 str2 dp i j ->
  filled_before str1 str2 (dp_set dp i j (cell str1 str2 dp i j)) i (S j).
Proof.
  intros Hshape Hi Hj Hfilled i' j' Hi' Hj' Hbefore.
  rewrite (dp_get_set _ _ _ _ _ _ _ _ Hshape Hi Hj).
  case_decide as Hhere.
  - destruct Hhere as [-> ->]. by apply cell_correct.
  - apply Hfilled; [done|done|]. lia.
Qed.

Lemma inner_loop_from (str1 str2 : jsstring) i k : forall j dp,
  j + k = length str2 + 1 ->
  table_shape (length str1) (length str2) dp ->
  i <= length str1 ->
  filled_before str1 str2 dp i j ->
  let dp' := foldl (fun dp j => dp_set dp i j (cell str1 str2 dp i j)) dp (seq j k) in
  table_shape (length str1) (length str2) dp'
  /\ filled_before str1 str2 dp' (S i) 0.
Proof.
  induction k as [|k IH]; intros j dp Hjk Hshape Hi Hfilled; simpl.
  - split; [done|]. intros i' j' Hi' Hj' Hbefore.
    apply Hfilled; [done|done|]. lia.
  - apply IH; [lia | by apply dp_set_shape | done |].
    apply inner_step; [done | done | lia | done].
Qed.

Lemma inner_loop_correct (str1 str2 : jsstring) i dp :
  table_shape (length str1) (length str2) dp ->
  i <= length str1 ->
  filled_before str1 str2 dp i 0 ->
  table_shape (length str1) (length str2) (inner_loop str1 str2 i dp)
  /\ filled_before str1 str2 (inner_loop str1 str2 i dp) (S i) 0.
Proof.
  intros Hshape Hi Hfilled.
  apply (inner_loop_from str1 str2 i (length str2 + 1) 0 dp); auto.
Qed.

Lemma outer_loop_from (str1 str2 : jsstring) k : forall i dp,
  i + k = length str1 + 1 ->
  table_shape (length str1) (length str2) dp ->
  filled_before str1 str2 dp i 0 ->
  filled_before str1 str2
    (foldl (fun dp i => inner_loop str1 str2 i dp) dp (seq i k))
    (length str1 + 1) 0.
Proof.
  induction k as [|k IH]; intros i dp Hik Hshape Hfilled; simpl.
  - by replace (length str1 + 1) with i by lia.
  - destruct (inner_loop_correct str1 str2 i dp) as [Hshape' Hfilled'];
      [done | lia | done |].
    apply IH; [lia | done | done].
Qed.

(** The table ends up holding the recurrence, read on the whole strings. *)
Lemma calculateEditDistance_lev (str1 str2 : jsstring) :
  calculateEditDistance str1 str2 = lev (reverse str1) (reverse str2).
Proof.
  unfold calculateEditDistance, fill.
  rewrite (outer_loop_from str1 str2 (length str1 + 1) 0
             (new_table (length str1) (length str2)));
    [ | lia | apply new_table_shape | | done | done | lia ].
  - unfold prefix_distance. by rewrite !firstn_all.
  - intros i' j' _ _ Hbefore. lia.
Qed.

End Table.

(** C7.  [calculateEditDistance] is the Levenshtein distance: for every two
    strings there is a script of that many single-character insertions,
    deletions and substitutions turning the first into the second, and no
    script does it in fewer.  In particular the distance from the empty
    string to itself is 0, from the empty string to [s] the length of [s],
    from "kitten" to "sitting" 3 and from "abc" to itself 0. *)
Theorem calculateEditDistance_is_levenshtein :
  (forall str1 str2 : jsstring,
     edits (calculateEditDistance str1 str2) str1 str2
     /\ forall n, edits n str1 str2 -> calculateEditDistance str1 str2 <= n)
  /\ calculateEditDistance (js "") (js "") = 0
  /\ (forall s : jsstring, calculateEditDistance [] s = length s)
  /\ calculateEditDistance (js "kitten") (js "sitting") = 3
  /\ calculateEditDistance (js "abc") (js "abc") = 0.
Proof.
  split; [|split; [|split; [|split]]].
  - intros str1 str2. rewrite calculateEditDistance_lev. split.
    + rewrite <- (reverse_involutive str1) at 2.
      rewrite <- (reverse_involutive str2) at 2.
      apply edits_reverse, lev_edits.
    + intros n Hn. by apply edits_lev_le, edits_reverse.
  - reflexivity.
  - intros s. rewrite calculateEditDistance_lev. simpl. apply length_reverse.
  - vm_compute. reflexivity.
  - vm_compute. reflexivity.
Qed.

Lemma calculateEditDistance_is_levenshtein_witness :
  calculateEditDistance (js "ab") (js "ba") <= 2.
Proof.
  apply (proj2 (proj1 calculateEditDistance_is_levenshtein (js "ab") (js "ba")) 2).
  apply (edits_S 1 (js "ab") (js "bb") (js "ba")).
  - exact (edit_substitute [] (js "b") 97%N 98%N).
  - apply (edits_S 0 (js "bb") (js "ba") (js "ba")).
    + exact (edit_substitute (js "b") [] 98%N 97%N).
    + apply edits_O.
Defined.

(* ===================================================================== *)
(** * Part III.  Further properties of the hook                            *)
(* ===================================================================== *)

(** ** More on the change-feed handler *)

Section ReconcilerMore.
Implicit Types (store : list SuggestionState) (r : AIMessageSuggestion).

Lemma filter_replace_other store r i :
  Suggestion.id r = i ->
  filter (fun s => sid s <> i)
    (map (fun s => if bool_decide (sid s = Suggestion.id r)
                   then SuggestionState.with_suggestion r s else s) store)
  = filter (fun s => sid s <> i) store.
Proof.
  intros <-. induction store as [|s store IH]; [done|].
  simpl. rewrite !filter_cons. case_bool_decide as Hs.
  - rewrite !decide_False by (intros Hne; by apply Hne). exact IH.
  - rewrite !decide_True by done. by rewrite IH.
Qed.

Lemma filter_twice store i :
  filter (fun s => sid s <> i) (filter (fun s => sid s <> i) store)
  = filter (fun s => sid s <> i) store.
Proof. apply filter_absent, removed_absent. Qed.

Lemma insert_unfold store r :
  on_postgres_changes (INSERT r) store
  = if bool_decide (Suggestion.id r ∈ ids store) then store
    else store ++ [fresh_entry r].
Proof. unfold on_postgres_changes. by rewrite existsb_sid. Qed.

(** X1.  A [DELETE] notification removes the entries with the old row's
    identifier and nothing else: the identifier is gone, every other entry
    is kept, in the order it had, and a store that did not hold the
    identifier is returned as it is. *)
Theorem delete_event_removes_only_that_id store (old_id : string) :
  let store' := on_postgres_changes (DELETE old_id) store in
  (old_id ∉ ids store')
  /\ (forall s, s ∈ store' <-> s ∈ store /\ sid s <> old_id)
  /\ store' `sublist_of` store
  /\ (old_id ∉ ids store -> store' = store).
Proof.
  simpl. split; [apply removed_absent|]. split; [|split].
  - intros s. rewrite list_elem_of_filter. tauto.
  - apply sublist_filter.
  - apply filter_absent.
Qed.

Lemma delete_event_removes_only_that_id_witness :
  on_postgres_changes (DELETE "s9") [Sample.shown Sample.s1; Sample.shown Sample.s2]
  = [Sample.shown Sample.s1; Sample.shown Sample.s2].
Proof.
  apply (proj2 (proj2 (proj2 (delete_event_removes_only_that_id
                                [Sample.shown Sample.s1; Sample.shown Sample.s2] "s9")))).
  vm_compute. intros H.
  apply elem_of_cons in H as [H|H]; [discriminate H|].
  apply list_elem_of_singleton in H. discriminate H.
Defined.

(** X2.  A notification only touches the entries that carry its identifier:
    the entries with any other identifier are the same, in the same order,
    before and after. *)
Theorem event_leaves_other_ids_alone (payload : Payload) store :
  filter (fun s => sid s <> payload_id payload) (on_postgres_changes payload store)
  = filter (fun s => sid s <> payload_id payload) store.
Proof.
  destruct payload as [r|i|r]; simpl.
  - destruct (existsb _ store); [done|].
    rewrite filter_app. simpl. rewrite filter_cons_False, filter_nil.
    + apply app_nil_r.
    + intros Hne. by apply Hne.
  - apply filter_twice.
  - destruct (_ || _); [apply filter_twice|].
    by apply filter_replace_other.
Qed.

(** X3.  Delivering the same notification twice is the same as delivering it
    once. *)
Theorem event_redelivery_is_harmless (payload : Payload) store :
  on_postgres_changes payload (on_postgres_changes payload store)
  = on_postgres_changes payload store.
Proof.
  destruct payload as [r|i|r].
  - rewrite (insert_unfold store r). case_bool_decide as Hin.
    + rewrite insert_unfold. by rewrite bool_decide_eq_true_2.
    + rewrite insert_unfold. rewrite bool_decide_eq_true_2; [done|].
      rewrite ids_app. apply elem_of_app. right. simpl. left.
  - simpl. apply filter_twice.
  - destruct (decide (Suggestion.status r = accepted \/ Suggestion.status r = rejected))
      as [Hterminal|Hpending].
    + rewrite !update_terminal_unfold by done. apply filter_twice.
    + assert (Ha : Suggestion.status r <> accepted) by tauto.
      assert (Hr : Suggestion.status r <> rejected) by tauto.
      rewrite !update_pending_unfold by done.
      rewrite map_map. apply map_ext. intros s.
      destruct (decide (sid s = Suggestion.id r)) as [Hs|Hs].
      * rewrite (bool_decide_eq_true_2 _ Hs).
        by rewrite bool_decide_eq_true_2.
      * rewrite (bool_decide_eq_false_2 _ Hs).
        by rewrite (bool_decide_eq_false_2 _ Hs).
Qed.

(** X4.  However many notifications arrive, a store that holds each
    identifier once keeps holding each identifier once. *)
Theorem change_feed_keeps_ids_unique (feed : list Payload) store :
  NoDup (ids store) -> NoDup (ids (deliver feed store)).
Proof. apply deliver_NoDup. Qed.

Lemma change_feed_keeps_ids_unique_witness :
  NoDup (ids (deliver [INSERT Sample.s1; UPDATE Sample.s1_reworded; DELETE "s2"]
                [Sample.shown Sample.s1; Sample.shown Sample.s2])).
Proof.
  apply (change_feed_keeps_ids_unique
           [INSERT Sample.s1; UPDATE Sample.s1_reworded; DELETE "s2"]
           [Sample.shown Sample.s1; Sample.shown Sample.s2]).
  vm_compute. apply NoDup_cons. split.
  - intros H. apply list_elem_of_singleton in H. discriminate H.
  - apply NoDup_singleton.
Defined.

(** X5.  Once an identifier has been taken out of the store (by [accept],
    [reject], a [DELETE] or a terminal [UPDATE]), an [UPDATE] notification
    for it changes nothing, whatever status it reports: the echo of the
    hook's own status change is harmless. *)
Theorem update_for_removed_id_is_ignored store r :
  on_postgres_changes (UPDATE r) (filter (fun s => sid s <> Suggestion.id r) store)
  = filter (fun s => sid s <> Suggestion.id r) store.
Proof.
  simpl. destruct (_ || _); [apply filter_twice|].
  apply replace_absent, removed_absent.
Qed.

End ReconcilerMore.

(** ** More on [storeFeedback] *)

(** Closes a goal that some call is not in an explicit list of calls. *)
Ltac not_among :=
  let H := fresh "H" in
  intros H;
  repeat (apply elem_of_cons in H as [H|H]; [discriminate H|]);
  by apply elem_of_nil in H.

Section StoreFeedbackMore.
Implicit Types (fb : AIFeedback) (w : World) (e : PostgrestError).

Lemma single_filter_absent {A : Type} (P : A -> Prop) `{forall x, Decision (P x)}
    (l : list A) :
  (forall x, x ∈ l -> ~ P x) -> single (filter P l) = None.
Proof.
  intros Hnone. replace (filter P l) with (@nil A); [done|].
  symmetry. induction l as [|x l IH]; [done|].
  rewrite filter_cons_False by (apply Hnone; left).
  apply IH. intros y Hy. apply Hnone. by right.
Qed.



(** X7.  With an agent signed in, a submission for a suggestion the table
    does not hold throws "Suggestion not found", and one for a known
    suggestion but a ticket the table does not hold throws "Ticket not
    found"; in both cases nothing has been written, traced or stamped. *)
Theorem storeFeedback_not_found fb w uid :
  user_id w = Some uid -> uid <> "" ->
  (Feedback.suggestion_id fb ∉ map Suggestion.id (ai_suggestions (db w)) ->
   storeFeedback fb w = (w, inl (JsError "Suggestion not found")))
  /\ (forall s,
        single (filter (fun r => Suggestion.id r = Feedback.suggestion_id fb)
                       (ai_suggestions (db w))) = Some s ->
        Feedback.ticket_id fb ∉ map Ticket.id (tickets (db w)) ->
        storeFeedback fb w = (w, inl (JsError "Ticket not found"))).
Proof.
  intros Hu Hne. split.
  - intros Habsent. run_monad. rewrite Hu. simpl.
    rewrite (bool_decide_eq_false_2 _ Hne). simpl.
    rewrite single_filter_absent; [done|].
    intros r Hr Hid. apply Habsent. rewrite <- Hid. by apply list_elem_of_fmap_2.
  - intros s Hs Habsent. run_monad. rewrite Hu. simpl.
    rewrite (bool_decide_eq_false_2 _ Hne). simpl. rewrite Hs. simpl.
    rewrite single_filter_absent; [done|].
    intros r Hr Hid. apply Habsent. rewrite <- Hid. by apply list_elem_of_fmap_2.
Qed.

Lemma storeFeedback_not_found_witness :
  storeFeedback Situation.approval_of_s9 (Sample.world None None)
  = (Sample.world None None, inl (JsError "Suggestion not found")).
Proof.
  apply (proj1 (storeFeedback_not_found Situation.approval_of_s9
                  (Sample.world None None) "agent-7"
                  eq_refl ltac:(discriminate))).
  vm_compute. not_among.
Defined.

(** X8.  Whatever happens, [storeFeedback] only ever appends to the
    FeedbackEvents and only restamps suggestions: the events present before
    are still there, unchanged and in order, followed by at most one new
    event; the table of tickets is untouched; and no suggestion row is
    added, removed, moved or given another identifier, text or creation
    time. *)
Theorem storeFeedback_is_append_only fb w :
  let d := db w in
  let d' := db (storeFeedback fb w).1 in
  ai_feedback_events d `prefix_of` ai_feedback_events d'
  /\ length (ai_feedback_events d') <= S (length (ai_feedback_events d))
  /\ tickets d' = tickets d
  /\ map (fun r => (Suggestion.id r, Suggestion.ticket_id r,
                    Suggestion.suggested_response r, Suggestion.metadata r,
                    Suggestion.created_at r)) (ai_suggestions d')
     = map (fun r => (Suggestion.id r, Suggestion.ticket_id r,
                      Suggestion.suggested_response r, Suggestion.metadata r,
                      Suggestion.created_at r)) (ai_suggestions d).
Proof.
  assert (Hkeep : forall id st now (rows : list AIMessageSuggestion),
    map (fun r => (Suggestion.id r, Suggestion.ticket_id r,
                   Suggestion.suggested_response r, Suggestion.metadata r,
                   Suggestion.created_at r))
        (map (fun r => if bool_decide (Suggestion.id r = id)
                       then Suggestion.with_status st now r else r) rows)
    = map (fun r => (Suggestion.id r, Suggestion.ticket_id r,
                     Suggestion.suggested_response r, Suggestion.metadata r,
                     Suggestion.created_at r)) rows).
  { intros id st now rows. rewrite map_map. apply map_ext.
    intros r. by case_bool_decide. }
  run_monad. run_cases; rewrite ?Hkeep, ?length_app; simpl;
    (split; [try done; by apply prefix_app_r|]); (split; [lia|]); done.
Qed.

(** X9.  [storeFeedback] adds its calls to the end of the trace log.  A run
    that returns normally has made seven calls, the last of them the flush.
    A run that stops at the user check, at a lookup that finds no single
    suggestion or ticket, or at a refused status update or insert has sent
    neither the final trace update nor the flush. *)
Theorem storeFeedback_flush_follows_both_writes fb w :
  exists calls,
    langfuse (storeFeedback fb w).1 = langfuse w ++ calls
    /\ ((storeFeedback fb w).2 = inr tt ->
        length calls = 7 /\ last calls = Some Langfuse.flushAsync)
    /\ (truthy_string (user_id w) = false
        \/ single (filter (fun r => Suggestion.id r = Feedback.suggestion_id fb)
                          (ai_suggestions (db w))) = None
        \/ single (filter (fun r => Ticket.id r = Feedback.ticket_id fb)
                          (tickets (db w))) = None
        \/ is_Some (update_answer w)
        \/ is_Some (insert_answer w) ->
        (Langfuse.flushAsync ∉ calls)
        /\ (forall output metadata, Langfuse.trace_update output metadata ∉ calls)).
Proof.
  run_monad.
  destruct (truthy_string (user_id w)) eqn:Hu; simpl;
    [destruct (single (filter _ (ai_suggestions (db w)))) eqn:Hs; simpl;
     [destruct (single (filter _ (tickets (db w)))) eqn:Ht; simpl;
      [destruct (update_answer w) eqn:Ha; simpl;
       [|destruct (insert_answer w) eqn:Hb; simpl]|]|]|];
    try (exists []; rewrite app_nil_r; split; [done|];
         split; [discriminate|]; intros _; split; [|intros ? ?];
         apply not_elem_of_nil).
  - eexists. split; [rewrite <- !(assoc_L (++)); simpl; reflexivity|].
    split; [discriminate|]. intros _. split; [|intros ? ?]; not_among.
  - eexists. split; [rewrite <- !(assoc_L (++)); simpl; reflexivity|].
    split; [discriminate|]. intros _. split; [|intros ? ?]; not_among.
  - eexists. split; [rewrite <- !(assoc_L (++)); simpl; reflexivity|].
    split; [done|].
    intros [H|[H|[H|[H|H]]]]; try discriminate H; by destruct H.
Qed.

End StoreFeedbackMore.

(** ** More on accepting and rejecting *)

Section AcceptReject.
Implicit Types (store : list SuggestionState) (w : World) (fb : AIFeedback).

Lemma acceptSuggestion_unfold ticketId feed i w :
  acceptSuggestion ticketId feed i w
  = let remote := remote_call_of_accept ticketId i w in
    let w1 := set_store (deliver feed) remote.1 in
    match remote.2 with
    | inl error => (w1, inl error)
    | inr _ => (set_store (filter (fun s => sid s <> i)) w1, inr tt)
    end.
Proof.
  unfold acceptSuggestion, remote_call_of_accept, approval_submitted, stamp,
    awaiting, setSuggestions, modify, Date_now, mbind, mret, M_bind, M_ret.
  simpl. by destruct (storeFeedback _ _) as [w' [err|[]]].
Qed.

(** X10.  [accept] removes nothing before the remote recording has
    succeeded.  If the recording fails, the caller gets that error and the
    local store is what the change feed made of it, the suggestion still
    shown; if it succeeds, the entries with that identifier are then taken
    out, whatever the change feed delivered meanwhile. *)
Theorem accept_removes_only_after_success ticketId feed (suggestion_id : string) w :
  let remote := remote_call_of_accept ticketId suggestion_id w in
  let run := acceptSuggestion ticketId feed suggestion_id w in
  (forall error, remote.2 = inl error ->
     run.2 = inl error /\ store run.1 = deliver feed (store w))
  /\ (remote.2 = inr tt ->
      run.2 = inr tt
      /\ store run.1 = filter (fun s => sid s <> suggestion_id) (deliver feed (store w))
      /\ suggestion_id ∉ ids (store run.1)).
Proof.
  intros remote run. subst run. rewrite acceptSuggestion_unfold. fold remote.
  cbv zeta.
  assert (Hstore : store remote.1 = store w).
  { subst remote. unfold remote_call_of_accept. by rewrite storeFeedback_store. }
  split.
  - intros error ->. simpl. by rewrite Hstore.
  - intros ->. simpl. rewrite Hstore.
    split; [done|]. split; [done|]. apply removed_absent.
Qed.

Lemma accept_removes_only_after_success_witness :
  let w := Sample.world (Some Sample.refused) None in
  let run := acceptSuggestion "t1" [] "s1" w in
  run.2 = inl (Postgrest Sample.refused) /\ store run.1 = deliver [] (store w).
Proof.
  apply (proj1 (accept_removes_only_after_success "t1" [] "s1"
                  (Sample.world (Some Sample.refused) None))
           (Postgrest Sample.refused)).
  reflexivity.
Defined.

(** X11.  What a successful [accept] leaves on the remote side: the
    suggestion is accepted, stamped with the time [storeFeedback] read (not
    the one [accept] read just before), and one FeedbackEvent of type
    approval is added, by the signed-in agent, without reason and without
    agent text. *)
Theorem accept_records_an_approval ticketId feed (suggestion_id : string) w uid s t :
  reaches_writes (approval_submitted ticketId suggestion_id (stamp w)) w uid s t ->
  update_answer w = None -> insert_answer w = None ->
  let run := acceptSuggestion ticketId feed suggestion_id w in
  run.2 = inr tt
  /\ single (filter (fun r => Suggestion.id r = suggestion_id)
                    (ai_suggestions (db run.1)))
     = Some (Suggestion.with_status accepted (clock w (S (clock_reads w))) s)
  /\ exists row,
       ai_feedback_events (db run.1) = ai_feedback_events (db w) ++ [row]
       /\ FeedbackEvent.feedback_type row = approval
       /\ FeedbackEvent.agent_id row = uid
       /\ FeedbackEvent.feedback_reason row = None
       /\ FeedbackEvent.agent_response row = None.
Proof.
  intros Hready Ha Hb run. subst run. rewrite acceptSuggestion_unfold.
  unfold remote_call_of_accept. cbv zeta.
  destruct (storeFeedback_recorded
              (approval_submitted ticketId suggestion_id (stamp w)) (tick w) uid s t
              Hready Ha Hb) as (Hr & Hrows & Hev & _).
  rewrite Hr. simpl. simpl in Hrows, Hev.
  split; [done|]. split.
  - rewrite Hrows. apply single_status_updated.
    by destruct Hready as (_ & _ & ? & _).
  - eexists. split; [exact Hev|]. done.
Qed.

Lemma accept_records_an_approval_witness :
  let run := acceptSuggestion "t1" [] "s1" (Sample.world None None) in
  run.2 = inr tt
  /\ single (filter (fun r => Suggestion.id r = "s1") (ai_suggestions (db run.1)))
     = Some (Suggestion.with_status accepted 5010%Z Sample.s1)
  /\ exists row,
       ai_feedback_events (db run.1) = [] ++ [row]
       /\ FeedbackEvent.feedback_type row = approval
       /\ FeedbackEvent.agent_id row = "agent-7"
       /\ FeedbackEvent.feedback_reason row = None
       /\ FeedbackEvent.agent_response row = None.
Proof.
  apply (accept_records_an_approval "t1" [] "s1" (Sample.world None None)
           "agent-7" Sample.s1 Sample.t1).
  - apply sample_reaches_writes; reflexivity.
  - reflexivity.
  - reflexivity.
Defined.

(** X12.  What a failed [reject] puts back is the entry the callback
    captured when it was created, looked up by identifier in that captured
    list, and it goes to the end of the store: the store afterwards is what
    the change feed made of the store without the identifier, followed by
    that captured entry if there is one.  A callback whose captured list
    does not hold the identifier puts nothing back. *)
Theorem reject_puts_back_the_captured_entry ticketId suggestions feed
    (suggestion_id : string) reason additional w :
  let remote := remote_call_of_reject ticketId suggestion_id reason additional w in
  let run := rejectSuggestion ticketId suggestions feed suggestion_id reason additional w in
  let without := filter (fun s => sid s <> suggestion_id) (store w) in
  forall error, remote.2 = inl error ->
    run.2 = inl error
    /\ store run.1
       = deliver feed without
         ++ option_list (find (fun s => bool_decide (sid s = suggestion_id)) suggestions)
    /\ (suggestion_id ∉ ids suggestions -> store run.1 = deliver feed without).
Proof.
  intros remote run without error Hfail. subst run.
  rewrite rejectSuggestion_unfold. fold remote. cbv zeta. rewrite Hfail.
  assert (Hstore : store remote.1 = without).
  { subst remote. unfold remote_call_of_reject. by rewrite storeFeedback_store. }
  destruct (find _ suggestions) as [f|] eqn:Hfind; simpl; rewrite Hstore.
  - split; [done|]. split; [done|]. intros Habsent. exfalso.
    apply find_some in Hfind as [Hin Hid]. apply bool_decide_eq_true in Hid.
    apply Habsent. rewrite <- Hid. apply list_elem_of_fmap_2.
    by apply list_elem_of_In.
  - split; [done|]. rewrite app_nil_r. done.
Qed.

Lemma reject_puts_back_the_captured_entry_witness :
  let w := Sample.world (Some Sample.refused) None in
  let run := rejectSuggestion "t1" [Sample.shown Sample.s1_reworded] []
               "s1" "off-topic" None w in
  run.2 = inl (Postgrest Sample.refused)
  /\ store run.1
     = deliver [] (filter (fun s => sid s <> "s1") (store w))
       ++ option_list (find (fun s => bool_decide (sid s = "s1"))
                            [Sample.shown Sample.s1_reworded])
  /\ ("s1" ∉ ids [Sample.shown Sample.s1_reworded] ->
      store run.1 = deliver [] (filter (fun s => sid s <> "s1") (store w))).
Proof.
  apply (reject_puts_back_the_captured_entry "t1" [Sample.shown Sample.s1_reworded] []
           "s1" "off-topic" None (Sample.world (Some Sample.refused) None)
           (Postgrest Sample.refused)).
  reflexivity.
Defined.

End AcceptReject.

Section RejectMore.
Implicit Types (store : list SuggestionState) (w : World) (fb : AIFeedback).

Lemma filter_only_id store s :
  NoDup (ids store) -> s ∈ store ->
  filter (fun x => ~ sid x <> sid s) store = [s].
Proof.
  induction store as [|x store IH]; intros Hnd Hin.
  - by apply elem_of_nil in Hin.
  - unfold ids in Hnd; simpl in Hnd. apply NoDup_cons in Hnd as [Hx Hnd].
    rewrite filter_cons. apply elem_of_cons in Hin as [-> | Hin].
    + rewrite decide_True by (intros Hne; by apply Hne). f_equal.
      replace (filter _ store) with (@nil SuggestionState); [done|].
      symmetry. clear IH Hnd. induction store as [|y store IH]; [done|].
      simpl in Hx. apply not_elem_of_cons in Hx as [Hy Hx].
      rewrite filter_cons_False; [by apply IH|].
      intros Hyx. apply Hyx. congruence.
    + rewrite decide_False; [by apply IH|].
      intros Hxs. apply Hx.
      destruct (decide (sid x = sid s)) as [->|Hne]; [|by destruct Hxs].
      by apply list_elem_of_fmap_2.
Qed.

(** X13.  Given a local store that holds each identifier once, a [reject]
    callback that captured that very store, and a silent change feed: a
    rejection that fails leaves the local store with the entries it had,
    each exactly once.  The store is a rearrangement of the one before the
    call (the suggestion has moved to the end) and still holds each
    identifier once. *)
Theorem failed_reject_restores_the_store ticketId reason additional w s error :
  s ∈ store w -> NoDup (ids (store w)) ->
  (remote_call_of_reject ticketId (sid s) reason additional w).2 = inl error ->
  let run := rejectSuggestion ticketId (store w) [] (sid s) reason additional w in
  store run.1 ≡ₚ store w
  /\ NoDup (ids (store run.1))
  /\ last (store run.1) = Some s.
Proof.
  intros Hin Hnd Hfail run. subst run.
  rewrite rejectSuggestion_unfold. cbv zeta. rewrite Hfail.
  rewrite (find_by_id _ _ Hnd Hin). simpl.
  unfold remote_call_of_reject. rewrite storeFeedback_store. simpl.
  assert (Hperm : filter (fun s' => sid s' <> sid s) (store w) ++ [s] ≡ₚ store w).
  { rewrite <- (filter_only_id (store w) s Hnd Hin).
    apply filter_app_complement. }
  split; [exact Hperm|]. split; [|by rewrite last_snoc].
  unfold ids. rewrite Hperm. exact Hnd.
Qed.

Lemma failed_reject_restores_the_store_witness :
  let w := Sample.world (Some Sample.refused) None in
  let run := rejectSuggestion "t1" (store w) [] "s1" "off-topic" None w in
  store run.1 ≡ₚ store w
  /\ NoDup (ids (store run.1))
  /\ last (store run.1) = Some (Sample.shown Sample.s1).
Proof.
  assert (Hnd : NoDup (ids (store (Sample.world (Some Sample.refused) None)))).
  { vm_compute. apply NoDup_cons. split; [not_among | apply NoDup_singleton]. }
  apply (failed_reject_restores_the_store "t1" "off-topic" None
           (Sample.world (Some Sample.refused) None) (Sample.shown Sample.s1)
           (Postgrest Sample.refused) (list_elem_of_here _ _) Hnd).
  reflexivity.
Defined.

(** X14.  When a rejection gets its status update through and then fails on
    the insert of the FeedbackEvent, [reject] still rolls back locally: the
    caller gets the insert's error and the entry the callback captured for
    that identifier is put back into the local store, while the remote row
    is already rejected and no FeedbackEvent has been written.  This holds
    for any captured list that holds the identifier, any store and any
    change feed. *)
Theorem partial_failure_leaves_mirror_behind ticketId suggestions feed
    (suggestion_id : string) reason additional w
    (f : SuggestionState) uid (r : AIMessageSuggestion) t e :
  find (fun s => bool_decide (sid s = suggestion_id)) suggestions = Some f ->
  reaches_writes
    (rejection_submitted ticketId suggestion_id reason additional (stamp w))
    w uid r t ->
  update_answer w = None -> insert_answer w = Some e ->
  let run := rejectSuggestion ticketId suggestions feed suggestion_id reason additional w in
  run.2 = inl (Postgrest e)
  /\ (f ∈ store run.1)
  /\ single (filter (fun r' => Suggestion.id r' = suggestion_id)
                    (ai_suggestions (db run.1)))
     = Some (Suggestion.with_status rejected (clock w (S (clock_reads w))) r)
  /\ ai_feedback_events (db run.1) = ai_feedback_events (db w).
Proof.
  intros Hfind Hready Ha Hb run. subst run.
  rewrite rejectSuggestion_unfold. cbv zeta.
  unfold remote_call_of_reject.
  destruct (storeFeedback_insert_refused
              (rejection_submitted ticketId suggestion_id reason additional (stamp w))
              (set_store (filter (fun s' => sid s' <> suggestion_id)) (tick w)) uid r t e
              Hready Ha Hb) as (Hr & Hrows & Hev & _).
  rewrite Hr, Hfind. simpl. simpl in Hrows, Hev.
  split; [done|]. split; [|split; [|done]].
  - apply elem_of_app. right. by apply list_elem_of_singleton.
  - rewrite Hrows. apply single_status_updated.
    by destruct Hready as (_ & _ & ? & _).
Qed.

Lemma partial_failure_leaves_mirror_behind_witness :
  let w := Sample.world None (Some Sample.refused) in
  let run := rejectSuggestion "t1" [Sample.shown Sample.s1_reworded]
               [UPDATE (Suggestion.with_status rejected 5010%Z Sample.s1)]
               "s1" "off-topic" None w in
  run.2 = inl (Postgrest Sample.refused)
  /\ (Sample.shown Sample.s1_reworded ∈ store run.1)
  /\ single (filter (fun r' => Suggestion.id r' = "s1") (ai_suggestions (db run.1)))
     = Some (Suggestion.with_status rejected 5010%Z Sample.s1)
  /\ ai_feedback_events (db run.1) = ai_feedback_events (db w).
Proof.
  apply (partial_failure_leaves_mirror_behind "t1" [Sample.shown Sample.s1_reworded]
           [UPDATE (Suggestion.with_status rejected 5010%Z Sample.s1)]
           "s1" "off-topic" None
           (Sample.world None (Some Sample.refused)) (Sample.shown Sample.s1_reworded)
           "agent-7" Sample.s1 Sample.t1 Sample.refused).
  - reflexivity.
  - apply sample_reaches_writes; reflexivity.
  - reflexivity.
  - reflexivity.
Defined.

(** X15.  What a successful [reject] records: the suggestion is marked
    rejected and one FeedbackEvent of type rejection is added whose reason
    is the one given ([null] if it was the empty string), and whose metadata
    holds the additional feedback under [additional_feedback] exactly when
    a non-empty one was given, next to the identifier of the trace. *)
Theorem reject_records_reason_and_comment ticketId feed (suggestion_id : string)
    (reason : FeedbackReason) (additional : option string) w uid s t :
  reaches_writes (rejection_submitted ticketId suggestion_id reason additional (stamp w))
    w uid s t ->
  update_answer w = None -> insert_answer w = None ->
  let run := rejectSuggestion ticketId (store w) feed suggestion_id reason additional w in
  run.2 = inr tt
  /\ single (filter (fun r => Suggestion.id r = suggestion_id)
                    (ai_suggestions (db run.1)))
     = Some (Suggestion.with_status rejected (clock w (S (clock_reads w))) s)
  /\ exists row,
       ai_feedback_events (db run.1) = ai_feedback_events (db w) ++ [row]
       /\ FeedbackEvent.feedback_type row = rejection
       /\ FeedbackEvent.feedback_reason row
          = (if bool_decide (reason = "") then None else Some reason)
       /\ FeedbackEvent.metadata row !! "additional_feedback"
          = (if truthy_string additional then MStr <$> additional else None)
       /\ FeedbackEvent.metadata row !! "trace_id" = Some (MStr (next_trace_id w)).
Proof.
  intros Hready Ha Hb run. subst run.
  rewrite rejectSuggestion_unfold. cbv zeta. unfold remote_call_of_reject.
  destruct (storeFeedback_recorded
              (rejection_submitted ticketId suggestion_id reason additional (stamp w))
              (set_store (filter (fun s' => sid s' <> suggestion_id)) (tick w)) uid s t
              Hready Ha Hb) as (Hr & Hrows & Hev & _).
  rewrite Hr. simpl. simpl in Hrows, Hev.
  split; [done|]. split.
  - rewrite Hrows. apply single_status_updated.
    by destruct Hready as (_ & _ & ? & _).
  - eexists. split; [exact Hev|].
    unfold feedback_event_row, rejection_submitted, string_or_null, truthy_string.
    cbn [FeedbackEvent.feedback_type FeedbackEvent.feedback_reason
         FeedbackEvent.metadata Feedback.feedback_type Feedback.feedback_reason
         Feedback.metadata].
    split; [done|]. split.
    + destruct (decide (reason = "")) as [->|Hne]; [done|].
      by rewrite !bool_decide_eq_false_2.
    + split; [|apply lookup_insert_eq].
      rewrite lookup_insert_ne by done.
      destruct additional as [a|]; [|apply lookup_empty].
      destruct (decide (a = "")) as [->|Hne]; [apply lookup_empty|].
      rewrite !bool_decide_eq_false_2 by done. apply lookup_singleton_eq.
Qed.

Lemma reject_records_reason_and_comment_witness :
  let w := Sample.world None None in
  let run := rejectSuggestion "t1" (store w) [] "s1" "off-topic" (Some "wrong device") w in
  run.2 = inr tt
  /\ single (filter (fun r => Suggestion.id r = "s1") (ai_suggestions (db run.1)))
     = Some (Suggestion.with_status rejected 5010%Z Sample.s1)
  /\ exists row,
       ai_feedback_events (db run.1) = ai_feedback_events (db w) ++ [row]
       /\ FeedbackEvent.feedback_type row = rejection
       /\ FeedbackEvent.feedback_reason row = Some "off-topic"
       /\ FeedbackEvent.metadata row !! "additional_feedback"
          = Some (MStr "wrong device")
       /\ FeedbackEvent.metadata row !! "trace_id" = Some (MStr "trace-1").
Proof.
  apply (reject_records_reason_and_comment "t1" [] "s1" "off-topic"
           (Some "wrong device") (Sample.world None None)
           "agent-7" Sample.s1 Sample.t1).
  - apply sample_reaches_writes; reflexivity.
  - reflexivity.
  - reflexivity.
Defined.

End RejectMore.

(** ** [fetchSuggestions] and [triggerSuggestion] *)

Section Fetch.
Implicit Types (h : Hook) (rows : list AIMessageSuggestion).

Lemma insert_by_created_at_perm r rows : insert_by_created_at r rows ≡ₚ r :: rows.
Proof.
  induction rows as [|x rows IH]; simpl; [done|].
  destruct (_ <=? _)%Z; [done|].
  rewrite IH. apply Permutation_swap.
Qed.

Lemma order_by_created_at_perm rows : order_by_created_at rows ≡ₚ rows.
Proof.
  induction rows as [|r rows IH]; simpl; [done|].
  rewrite insert_by_created_at_perm. by rewrite IH.
Qed.

Lemma insert_by_created_at_sorted r rows :
  Sorted created_no_later rows -> Sorted created_no_later (insert_by_created_at r rows).
Proof.
  induction rows as [|x rows IH]; intros Hsorted; simpl.
  - by repeat constructor.
  - destruct (Z.leb_spec (Suggestion.created_at r) (Suggestion.created_at x)) as [Hle|Hgt].
    + constructor; [done|]. constructor. exact Hle.
    + apply Sorted_inv in Hsorted as [Hrest Hhd].
      constructor; [by apply IH|].
      destruct rows as [|y rows]; simpl.
      * constructor. unfold created_no_later. lia.
      * destruct (_ <=? _)%Z; constructor.
        -- unfold created_no_later. lia.
        -- by apply HdRel_inv in Hhd.
Qed.

Lemma order_by_created_at_sorted rows :
  StronglySorted created_no_later (order_by_created_at rows).
Proof.
  apply Sorted_StronglySorted.
  - intros a b c. unfold created_no_later. lia.
  - induction rows as [|r rows IH]; simpl; [constructor|].
    by apply insert_by_created_at_sorted.
Qed.

(** X16.  A fetch the remote store answers replaces the local store,
    whatever it showed, by the suggestions of the ticket: all of them, of
    every status (accepted and rejected ones too), each once per row, by
    ascending creation time, each shown as [success].  It returns normally,
    leaves [isLoading] false and does not clear an earlier error. *)
Theorem fetch_replaces_store_by_ticket_rows instanceof_Error (ticketId : string) h :
  select_answer h = None ->
  let run := fetchSuggestions instanceof_Error ticketId h in
  run.2 = inr tt
  /\ isLoading run.1 = false
  /\ error run.1 = error h
  /\ db (world run.1) = db (world h)
  /\ exists data,
       store (world run.1) = map fresh_entry data
       /\ data ≡ₚ filter (fun r => Suggestion.ticket_id r = ticketId)
                         (ai_suggestions (db (world h)))
       /\ StronglySorted created_no_later data.
Proof.
  intros Hanswer run. subst run.
  unfold fetchSuggestions, try_finally, try_catchH, select_by_ticket, modifyH,
    throwH, mbind, mret, H_bind, H_ret. simpl. rewrite Hanswer. simpl.
  repeat (split; [done|]).
  eexists. split; [reflexivity|].
  split; [apply order_by_created_at_perm | apply order_by_created_at_sorted].
Qed.

Lemma fetch_replaces_store_by_ticket_rows_witness :
  let h := Situation.hook [Sample.s2; Situation.s3_elsewhere; Sample.s1_accepted]
             None (http_response true (inr "{}")) in
  let run := fetchSuggestions (fun _ => false) "t1" h in
  run.2 = inr tt
  /\ isLoading run.1 = false
  /\ error run.1 = error h
  /\ db (world run.1) = db (world h)
  /\ exists data,
       store (world run.1) = map fresh_entry data
       /\ data ≡ₚ filter (fun r => Suggestion.ticket_id r = "t1")
                         (ai_suggestions (db (world h)))
       /\ StronglySorted created_no_later data.
Proof.
  apply (fetch_replaces_store_by_ticket_rows (fun _ => false) "t1"
           (Situation.hook [Sample.s2; Situation.s3_elsewhere; Sample.s1_accepted]
              None (http_response true (inr "{}")))).
  reflexivity.
Defined.

(** X17.  [fetchSuggestions] never throws and always ends with [isLoading]
    false.  When the remote store answers with an error, the local store and
    the remote tables are as before and the error state is set: to the
    answer's error if it is an [Error] object, to a new "Failed to fetch AI
    suggestions" otherwise. *)
Theorem fetch_failure_is_kept_in_state instanceof_Error (ticketId : string) h :
  let run := fetchSuggestions instanceof_Error ticketId h in
  run.2 = inr tt
  /\ isLoading run.1 = false
  /\ (forall e, select_answer h = Some e ->
        world run.1 = world h
        /\ error run.1
           = Some (if instanceof_Error e then Postgrest e
                   else JsError "Failed to fetch AI suggestions")).
Proof.
  intros run. subst run.
  unfold fetchSuggestions, try_finally, try_catchH, select_by_ticket, modifyH,
    throwH, mbind, mret, H_bind, H_ret. simpl.
  destruct (select_answer h) as [e'|]; simpl.
  - split; [done|]. split; [done|]. intros e [= ->]. by destruct h.
  - split; [done|]. split; [done|]. discriminate.
Qed.

Lemma fetch_failure_is_kept_in_state_witness :
  let h := Situation.hook [Sample.s1; Sample.s2] (Some Sample.refused)
             (http_response true (inr "{}")) in
  let run := fetchSuggestions (fun _ => false) "t1" h in
  world run.1 = world h
  /\ error run.1 = Some (JsError "Failed to fetch AI suggestions").
Proof.
  apply (proj2 (proj2 (fetch_failure_is_kept_in_state (fun _ => false) "t1"
                         (Situation.hook [Sample.s1; Sample.s2] (Some Sample.refused)
                            (http_response true (inr "{}")))))
           Sample.refused).
  reflexivity.
Defined.



End Fetch.

Section Refetch.
Implicit Types (h : Hook) (w : World).

Lemma single_elem {A : Type} (l : list A) x : single l = Some x -> x ∈ l.
Proof. destruct l as [|y [|z l]]; simpl; [done| |done]. intros [= ->]. left. Qed.

Lemma acceptSuggestion_recorded ticketId feed (i : string) w uid s t :
  reaches_writes (approval_submitted ticketId i (stamp w)) w uid s t ->
  update_answer w = None -> insert_answer w = None ->
  (acceptSuggestion ticketId feed i w).2 = inr tt
  /\ store (acceptSuggestion ticketId feed i w).1
     = filter (fun x => sid x <> i) (deliver feed (store w))
  /\ Suggestion.with_status accepted (clock w (S (clock_reads w))) s
     ∈ ai_suggestions (db (acceptSuggestion ticketId feed i w).1).
Proof.
  intros Hready Ha Hb. rewrite acceptSuggestion_unfold.
  unfold remote_call_of_accept. cbv zeta.
  pose proof (storeFeedback_store
                (approval_submitted ticketId i (stamp w)) (tick w)) as Hstore.
  destruct (storeFeedback_recorded
              (approval_submitted ticketId i (stamp w)) (tick w) uid s t
              Hready Ha Hb) as (Hr & Hrows & _).
  rewrite Hr. simpl. simpl in Hrows, Hstore. rewrite Hstore.
  split; [done|]. split; [done|].
  rewrite Hrows.
  assert (Hin : Suggestion.with_status accepted (clock w (S (clock_reads w))) s
                ∈ filter (fun r => Suggestion.id r = i)
                    (status_updated i accepted (clock w (S (clock_reads w)))
                       (ai_suggestions (db w)))).
  { apply single_elem. apply single_status_updated.
    by destruct Hready as (_ & _ & ? & _). }
  by apply list_elem_of_filter in Hin as [_ ?].
Qed.

(** X19.  Removal from the local store does not survive a refetch.  After a
    successful [accept] the suggestion is gone from the local store; a
    following fetch that the remote store answers shows it again, now with
    status accepted, because the select asks for the ticket's suggestions of
    every status. *)
Theorem refetch_shows_accepted_suggestion_again instanceof_Error ticketId feed
    (suggestion_id : string) h uid s t :
  reaches_writes (approval_submitted ticketId suggestion_id (stamp (world h)))
    (world h) uid s t ->
  update_answer (world h) = None -> insert_answer (world h) = None ->
  select_answer h = None ->
  Suggestion.ticket_id s = ticketId ->
  let h1 := (liftM (acceptSuggestion ticketId feed suggestion_id) h).1 in
  let h2 := (fetchSuggestions instanceof_Error ticketId h1).1 in
  (suggestion_id ∉ ids (store (world h1)))
  /\ (fresh_entry
        (Suggestion.with_status accepted
           (clock (world h) (S (clock_reads (world h)))) s)
      ∈ store (world h2)).
Proof.
  intros Hready Ha Hb Hsel Hticket h1 h2.
  destruct (acceptSuggestion_recorded ticketId feed suggestion_id (world h) uid s t
              Hready Ha Hb) as (_ & Hstore & Hrow).
  assert (Hw1 : world h1 = (acceptSuggestion ticketId feed suggestion_id (world h)).1).
  { subst h1. unfold liftM. by destruct (acceptSuggestion _ _ _ _). }
  assert (Hsel1 : select_answer h1 = None).
  { subst h1. unfold liftM. by destruct (acceptSuggestion _ _ _ _). }
  split.
  - rewrite Hw1, Hstore. apply removed_absent.
  - subst h2.
    unfold fetchSuggestions, try_finally, try_catchH, select_by_ticket, modifyH,
      throwH, mbind, mret, H_bind, H_ret. simpl. rewrite Hsel1. simpl.
    apply (list_elem_of_fmap_2 fresh_entry).
    rewrite order_by_created_at_perm. apply list_elem_of_filter.
    split; [exact Hticket|]. by rewrite Hw1.
Qed.

Lemma refetch_shows_accepted_suggestion_again_witness :
  let h := Situation.hook [Sample.s1; Sample.s2] None (http_response true (inr "{}")) in
  let h1 := (liftM (acceptSuggestion "t1" [] "s1") h).1 in
  let h2 := (fetchSuggestions (fun _ => false) "t1" h1).1 in
  ("s1" ∉ ids (store (world h1)))
  /\ (fresh_entry (Suggestion.with_status accepted 5010%Z Sample.s1)
      ∈ store (world h2)).
Proof.
  apply (refetch_shows_accepted_suggestion_again (fun _ => false) "t1" [] "s1"
           (Situation.hook [Sample.s1; Sample.s2] None (http_response true (inr "{}")))
           "agent-7" Sample.s1 Sample.t1).
  - apply sample_reaches_writes; reflexivity.
  - reflexivity.
  - reflexivity.
  - reflexivity.
  - reflexivity.
Defined.

End Refetch.

(** ** [useUserRole] *)

Section UserRoles.
Import UserRole.

Lemma includes_elem (roleNames : list string) (name : string) :
  includes roleNames name = true <-> name ∈ roleNames.
Proof.
  unfold includes. induction roleNames as [|n l IH]; simpl.
  - split; [discriminate|]. intros H. by apply elem_of_nil in H.
  - rewrite orb_true_iff, IH, bool_decide_eq_true, elem_of_cons.
    split; (intros [?|?]; [left; congruence | by right]).
Qed.

(** X20.  Whatever the profile and whatever the remote store answers, the
    effect of [useUserRole] ends with [loading] false.  Without a profile
    identifier, or when the select fails, the three role flags keep the
    values they had; when the select answers, each flag says whether a row
    with that role name came back ([null] data meaning none), independently
    of what the flags were. *)
Theorem user_role_flags (profile_id : option string)
    (answer : PostgrestError + option (list Row)) (st : State) :
  let st' := effect profile_id answer st in
  loading st' = false
  /\ (truthy_string profile_id = false \/ (exists e, answer = inl e) ->
      (isCustomer st', isAgent st', isAdmin st')
      = (isCustomer st, isAgent st, isAdmin st))
  /\ (forall data, truthy_string profile_id = true -> answer = inr data ->
        let names := map role_name (default [] data) in
        (isCustomer st' = true <-> "customer" ∈ names)
        /\ (isAgent st' = true <-> "agent" ∈ names)
        /\ (isAdmin st' = true <-> "admin" ∈ names)).
Proof.
  unfold effect, fetchUserRoles. split; [|split].
  - by destruct (truthy_string profile_id), answer.
  - intros [-> | [e ->]]; [done|]. by destruct (truthy_string profile_id).
  - intros data -> ->. simpl.
    rewrite !includes_elem. by destruct data.
Qed.

Lemma user_role_flags_witness :
  let st := {| isCustomer := false; isAgent := true; isAdmin := true; loading := true |} in
  let st' := effect (Some "u1") (inl Sample.refused) st in
  (isCustomer st', isAgent st', isAdmin st') = (false, true, true).
Proof.
  apply (proj1 (proj2 (user_role_flags (Some "u1") (inl Sample.refused)
           {| isCustomer := false; isAgent := true; isAdmin := true; loading := true |}))).
  right. exists Sample.refused. reflexivity.
Defined.

End UserRoles.

(** ** The edit distance as a metric *)

Section Metric.
Implicit Types (s t u p q : jsstring) (a b c : code_unit).

Lemma distance_script s t : edits (calculateEditDistance s t) s t.
Proof.
  rewrite calculateEditDistance_lev.
  rewrite <- (reverse_involutive s) at 2. rewrite <- (reverse_involutive t) at 2.
  apply edits_reverse, lev_edits.
Qed.

Lemma distance_least n s t : edits n s t -> calculateEditDistance s t <= n.
Proof.
  intros Hn. rewrite calculateEditDistance_lev. by apply edits_lev_le, edits_reverse.
Qed.

Lemma distance_lev s t : calculateEditDistance s t = lev s t.
Proof.
  apply Nat.le_antisymm.
  - apply distance_least, lev_edits.
  - apply edits_lev_le, distance_script.
Qed.

Lemma edits_trans n m s u t : edits n s u -> edits m u t -> edits (n + m) s t.
Proof.
  induction 1 as [s|n s v u Hstep _ IH]; intros Hm; [done|].
  simpl. eapply edits_S; [exact Hstep | by apply IH].
Qed.

Lemma edit1_sym s u : edit1 s u -> edit1 u s.
Proof. intros [p q c|p q c|p q c d]; constructor. Qed.

Lemma edits_sym n s t : edits n s t -> edits n t s.
Proof.
  induction 1 as [s|n s u t Hstep _ IH]; [constructor|].
  replace (S n) with (n + 1) by lia.
  apply (edits_trans n 1 t u s IH).
  eapply edits_S; [by apply edit1_sym | constructor].
Qed.

Lemma edit1_length s u :
  edit1 s u -> length s <= S (length u) /\ length u <= S (length s).
Proof. intros [p q c|p q c|p q c d]; rewrite !length_app; simpl; lia. Qed.

Lemma edits_length n s t :
  edits n s t -> length s <= length t + n /\ length t <= length s + n.
Proof.
  induction 1 as [s|n s u t Hstep _ IH]; [lia|].
  apply edit1_length in Hstep. lia.
Qed.

Lemma lev_le_max s : forall t, lev s t <= length s `max` length t.
Proof.
  induction s as [|a s IH]; intros t; [simpl; lia|].
  destruct t as [|b t]; [rewrite lev_cons_nil; simpl; lia|].
  pose proof (lev_cons_le a s b t). specialize (IH t). cbn [length]. lia.
Qed.

Lemma lev_common_prefix p s t : lev (p ++ s) (p ++ t) = lev s t.
Proof.
  induction p as [|c p IH]; [done|].
  simpl app. rewrite lev_cons. by rewrite decide_True.
Qed.

(** X21.  The edit distance does not depend on the order of its arguments. *)
Theorem distance_symmetric (str1 str2 : jsstring) :
  calculateEditDistance str1 str2 = calculateEditDistance str2 str1.
Proof.
  apply Nat.le_antisymm; apply distance_least, edits_sym, distance_script.
Qed.

(** X22.  The edit distance obeys the triangle inequality: going through a
    third string is never shorter. *)
Theorem distance_triangle (str1 str2 str3 : jsstring) :
  calculateEditDistance str1 str3
  <= calculateEditDistance str1 str2 + calculateEditDistance str2 str3.
Proof.
  apply distance_least.
  apply (edits_trans _ _ str1 str2 str3); apply distance_script.
Qed.

(** X23.  The edit distance is zero exactly for equal strings. *)
Theorem distance_zero_iff_equal (str1 str2 : jsstring) :
  calculateEditDistance str1 str2 = 0 <-> str1 = str2.
Proof.
  split.
  - intros Hzero. pose proof (distance_script str1 str2) as Hscript.
    rewrite Hzero in Hscript. by inversion Hscript.
  - intros ->. rewrite distance_lev. apply lev_refl.
Qed.

(** X24.  The edit distance lies between the difference of the two lengths
    and the larger of the two lengths. *)
Theorem distance_bounds (str1 str2 : jsstring) :
  length str1 - length str2 <= calculateEditDistance str1 str2
  /\ length str2 - length str1 <= calculateEditDistance str1 str2
  /\ calculateEditDistance str1 str2 <= length str1 `max` length str2.
Proof.
  pose proof (edits_length _ _ _ (distance_script str1 str2)) as [H1 H2].
  split; [lia|]. split; [lia|].
  rewrite distance_lev. apply lev_le_max.
Qed.

(** X25.  Text the two strings share at the start and at the end does not
    count: the distance is that of what lies in between. *)
Theorem distance_ignores_common_ends (p q str1 str2 : jsstring) :
  calculateEditDistance (p ++ str1 ++ q) (p ++ str2 ++ q)
  = calculateEditDistance str1 str2.
Proof.
  rewrite distance_lev, lev_common_prefix, <- distance_lev.
  rewrite !calculateEditDistance_lev, !reverse_app.
  apply lev_common_prefix.
Qed.

(** X26.  When the loops are done, every cell of the table holds the edit
    distance between the corresponding prefixes of the two strings. *)
Theorem table_holds_prefix_distances (str1 str2 : jsstring) (i j : nat) :
  i <= length str1 -> j <= length str2 ->
  dp_get (fill str1 str2) i j = calculateEditDistance (take i str1) (take j str2).
Proof.
  intros Hi Hj. unfold fill.
  rewrite (outer_loop_from str1 str2 (length str1 + 1) 0
             (new_table (length str1) (length str2)));
    [ | lia | apply new_table_shape | | done | done | lia ].
  - by rewrite calculateEditDistance_lev.
  - intros i' j' _ _ Hbefore. lia.
Qed.

Lemma table_holds_prefix_distances_witness :
  dp_get (fill (js "kitten") (js "sitting")) 3 2
  = calculateEditDistance (take 3 (js "kitten")) (take 2 (js "sitting")).
Proof.
  apply (table_holds_prefix_distances (js "kitten") (js "sitting") 3 2).
  - vm_compute. lia.
  - vm_compute. lia.
Defined.

End Metric.
